(** * The Juraxis legal-document pipeline: classification, chunking, dual-store indexing

    A shallow embedding of [runpod_juraxis_pipeline.py] (class
    [JuraxisRunPodPipeline]) and the properties of it that the design document
    states.

    Conventions of the embedding.
    - A Python [str] is a list of Unicode code points ([list N]); [len] is the
      length of that list.  Character classes are Python's: [isspace] is the
      interpreter's white-space table, [\w] is [str.isalnum] or an underscore.
    - A Python [dict] with string keys is a [gmap]; a [list] is a [list]; a
      value that may be [None] is an [option].
    - A [float] is a binary64 float.
    - Everything the pipeline calls but does not define (NLTK, the tokenizer of
      the reasoning model, BeautifulSoup, the regular-expression searches of the
      classifier, [hashlib], the builtin [hash], the embedding model, numpy) is a
      field of the class [Runtime]: one value of it is one interpreter process
      with its loaded models.
    - A statement that may raise inside a [try] is a computation in [option];
      [None] is the exception reaching the handler.  A call that an exception
      can leave gives an [outcome]: the value returned, or [Raises]. *)

From Stdlib Require Import ZArith NArith List String Ascii DecimalString Floats Lia Permutation.
From stdpp Require Import gmap strings list.

Set Warnings "-inexact-float,-abstract-large-number".

(* ===================================================================== *)
(** * Part I. The program *)
(* ===================================================================== *)

(** ** Python text *)

Abbreviation char := N (only parsing).
Abbreviation str := (list N) (only parsing).

Definition chr (a : ascii) : char := N_of_ascii a.

(** A literal of the source, code point by code point (ASCII literals only). *)
Definition lit (s : string) : str := map chr (list_ascii_of_string s).

Definition NL : char := 10%N.
Definition SP : char := 32%N.
Definition DQUOTE : char := 34%N.
Definition SQUOTE : char := 39%N.
Definition BACKSLASH : char := 92%N.

(** [len(s)] *)
Definition len {A} (s : list A) : Z := Z.of_nat (length s).

(** [not s] for a string or a list. *)
Definition is_empty {A} (s : list A) : bool :=
  match s with [] => true | _ :: _ => false end.

(** [str.isspace] of one character: the interpreter's table of white space
    (used by [str.strip] and by [\s] in a [str] pattern). *)
Definition isspace (c : char) : bool :=
  ((9 <=? c) && (c <=? 13) || (28 <=? c) && (c <=? 32) || (c =? 133) || (c =? 160)
   || (c =? 5760) || (8192 <=? c) && (c <=? 8202) || (c =? 8232) || (c =? 8233)
   || (c =? 8239) || (c =? 8287) || (c =? 12288))%N.

Fixpoint lstrip (s : str) : str :=
  match s with
  | [] => []
  | c :: r => if isspace c then lstrip r else s
  end.

Definition rstrip (s : str) : str := rev (lstrip (rev s)).

(** [s.strip()] *)
Definition strip (s : str) : str := lstrip (rstrip s).

(** [s.replace(a, b)] for one-character [a] and [b]. *)
Definition replace (a b : char) (s : str) : str :=
  map (fun c => if (c =? a)%N then b else c) s.

(** [c in s] for a one-character [c]. *)
Definition has_char (c : char) (s : str) : bool := existsb (N.eqb c) s.

Fixpoint starts_with (p s : str) : bool :=
  match p, s with
  | [], _ => true
  | _ :: _, [] => false
  | a :: p', b :: s' => (a =? b)%N && starts_with p' s'
  end.

(** [needle in hay] *)
Fixpoint contains (needle hay : str) : bool :=
  starts_with needle hay
  || match hay with [] => false | _ :: t => contains needle t end.

(** [text.split('\n\n')]: the pieces between the non-overlapping occurrences
    of two line feeds, scanned from the left. *)
Fixpoint split_blank_acc (piece : str) (s : str) : list str :=
  match s with
  | [] => [rev piece]
  | c :: r =>
      match r with
      | c' :: r' =>
          if (c =? NL)%N && (c' =? NL)%N
          then rev piece :: split_blank_acc [] r'
          else split_blank_acc (c :: piece) r
      | [] => [rev (c :: piece)]
      end
  end.

Definition split_blank (s : str) : list str := split_blank_acc [] s.

(** [l[-n:]] for [n > 0]. *)
Definition last_n {A} (n : nat) (l : list A) : list A := skipn (length l - n) l.

(** [range(0, stop, step)] *)
Definition range_step (stop step : nat) : list nat :=
  map (fun k => k * step) (seq 0 ((stop + step - 1) / step)).

(** [l[i:i+n]] *)
Definition slice {A} (i n : nat) (l : list A) : list A := firstn n (skipn i l).

(** The batches [l[i:i+n] for i in range(0, len(l), n)]. *)
Definition batches {A} (n : nat) (l : list A) : list (list A) :=
  map (fun i => slice i n l) (range_step (length l) n).

(** [str(i)] for a non-negative integer. *)
Definition str_of_nat (i : nat) : str := lit (NilEmpty.string_of_uint (Nat.to_uint i)).

(** *** The character sets of [re]

    [re.sub(r'\s+', ' ', text)]: every maximal run of white space becomes one
    space. *)
Fixpoint sub_space_runs_from (in_run : bool) (s : str) : str :=
  match s with
  | [] => []
  | c :: r =>
      if isspace c
      then (if in_run then sub_space_runs_from true r else SP :: sub_space_runs_from true r)
      else c :: sub_space_runs_from false r
  end.

Definition sub_space_runs (s : str) : str := sub_space_runs_from false s.

(** [re.sub(r'\n\s*\n', '\n\n', text)].  A match starts at a line feed and, the
    star being greedy, ends at the last line feed of the white-space run that
    follows it.  [pending] is [None] outside a candidate match; inside one it
    holds whether a second line feed was met and the white space read since the
    last line feed. *)
Definition flush_blank (pending : option (bool * str)) : str :=
  match pending with
  | None => []
  | Some (true, tail) => NL :: NL :: rev tail
  | Some (false, tail) => NL :: rev tail
  end.

Fixpoint sub_blank_lines_from (pending : option (bool * str)) (s : str) : str :=
  match s with
  | [] => flush_blank pending
  | c :: r =>
      match pending with
      | None =>
          if (c =? NL)%N then sub_blank_lines_from (Some (false, [])) r
          else c :: sub_blank_lines_from None r
      | Some (seen, tail) =>
          if (c =? NL)%N then sub_blank_lines_from (Some (true, [])) r
          else if isspace c then sub_blank_lines_from (Some (seen, c :: tail)) r
          else flush_blank pending ++ c :: sub_blank_lines_from None r
      end
  end.

Definition sub_blank_lines (s : str) : str := sub_blank_lines_from None s.

(** [re.sub(r'[.]{3,}', '...', text)]: a run of three or more periods becomes
    three; [dots] counts the periods of the run being read. *)
Definition PERIOD : char := 46%N.

Definition flush_periods (dots : nat) : str := repeat PERIOD (Nat.min dots 3).

Fixpoint sub_period_runs_from (dots : nat) (s : str) : str :=
  match s with
  | [] => flush_periods dots
  | c :: r =>
      if (c =? PERIOD)%N then sub_period_runs_from (S dots) r
      else flush_periods dots ++ c :: sub_period_runs_from 0 r
  end.

Definition sub_period_runs (s : str) : str := sub_period_runs_from 0 s.

(** A pattern that is one bracketed set of literal characters, as [re] parses
    it: a [']'] right after the opening bracket is a member of the set, not
    its end, and a set that never closes is the error
    [unterminated character set]. *)
Fixpoint set_members (first : bool) (p : str) (acc : list char) : option (list char * str) :=
  match p with
  | [] => None
  | c :: rest =>
      if (c =? chr "]")%N && negb first then Some (rev acc, rest)
      else set_members false rest (c :: acc)
  end.

Definition compile_char_set (pattern : str) : option (list char) :=
  match pattern with
  | c :: rest =>
      if (c =? chr "[")%N then
        match set_members true rest [] with
        | Some (members, []) => Some members
        | _ => None
        end
      else None
  | [] => None
  end.

(** [re.sub(pattern, repl, text)] for such a pattern and a one-character
    replacement; [None] is [re.error]. *)
Definition re_sub_char_set (pattern : str) (repl : char) (text : str) : option str :=
  members ← compile_char_set pattern;
  Some (map (fun c => if has_char c members then repl else c) text).

(** *** Two readings of a text

    The content of a text: its characters that are not white space, in
    order. *)
Definition non_whitespace (s : str) : str :=
  List.filter (fun c => negb (isspace c)) s.

(** A text in which white space is single spaces only; [prev] tells whether
    the character before the text is white space. *)
Fixpoint collapsed (prev : bool) (s : str) : Prop :=
  match s with
  | [] => True
  | c :: r =>
      if isspace c then prev = false ∧ c = SP ∧ collapsed true r
      else collapsed false r
  end.

(** ** Values and collaborators *)

(** The values a raw record ([Dict[str, Any]]) holds in this pipeline: text,
    and, in the records converted from CSV rows, a float and lists of text. *)
Inductive value :=
  | VStr (s : str)
  | VFloat (f : float)
  | VList (l : list str).

(** Truth value of [v] in a condition ([if not v]). *)
Definition truthy (v : value) : bool :=
  match v with
  | VStr s => negb (is_empty s)
  | VFloat f => negb (PrimFloat.eqb f 0%float)
  | VList l => negb (is_empty l)
  end.

(** [v[:200]] is defined for text and for lists; a float has no slice
    ([TypeError]). *)
Definition sliceable (v : value) : bool :=
  match v with
  | VStr _ | VList _ => true
  | VFloat _ => false
  end.

(** What a call gives: the value it returns, or an exception that leaves it. *)
Inductive outcome (A : Type) : Type :=
  | Returns (a : A)
  | Raises.

Arguments Returns {A} a.
Arguments Raises {A}.

Abbreviation record := (gmap string value) (only parsing).

(** [d.get(key, default)] *)
Definition dict_get (d : record) (key : string) (dflt : value) : value :=
  default dflt (d !! key).

(** An embedding vector ([np.ndarray] of floats). *)
Abbreviation vector := (list float) (only parsing).

(** The tokenizer of the reasoning model ([AutoTokenizer]). *)
Record Tokenizer := {
  encode : str -> list Z;
  decode : list Z -> str
}.

(** One interpreter process and what it has loaded. *)
Class Runtime := {
  (** [str.isalnum] of a code point above 127 (consulted by [\w]) *)
  unicode_isalnum : char -> bool;
  (** [str.lower] of a text that is not pure ASCII *)
  unicode_lower : str -> str;
  (** [str(v)] of a value that is not text *)
  repr_value : value -> str;
  (** [nltk.tokenize.sent_tokenize] *)
  sent_tokenize : str -> list str;
  (** [self.deepseek_tokenizer]; [None] when it failed to load *)
  deepseek_tokenizer : option Tokenizer;
  (** [BeautifulSoup(text, 'html.parser').get_text()] *)
  html_get_text : str -> str;
  (** [re.search(pattern, text)] found a match *)
  re_search : str -> str -> bool;
  (** [re.compile(pattern, re.IGNORECASE).findall(text)] *)
  re_findall_ignorecase : str -> str -> list str;
  (** [list(set(xs))]: the distinct members, in the set's iteration order *)
  list_of_set : list str -> list str;
  (** [hashlib.md5(s.encode()).hexdigest()] *)
  md5_hexdigest : str -> str;
  (** the builtin [hash] of a [str], salted per process *)
  py_hash : str -> Z;
  (** [self.embedding_model.encode(batch, ...)]; [None] when it raises *)
  embedding_encode : list str -> option (list vector);
  (** [np.mean(vectors, axis=0)] *)
  np_mean : list vector -> vector;
  (** [self.qdrant_client] is not [None] *)
  qdrant_client : bool
}.

Section Program.
Context `{RT : Runtime}.

(** [str(text)] *)
Definition py_str (v : value) : str :=
  match v with
  | VStr s => s
  | _ => repr_value v
  end.

Definition is_ascii (c : char) : bool := (c <? 128)%N.

Definition ascii_isalnum (c : char) : bool :=
  ((48 <=? c) && (c <=? 57) || (65 <=? c) && (c <=? 90) || (97 <=? c) && (c <=? 122))%N.

Definition isalnum (c : char) : bool :=
  if is_ascii c then ascii_isalnum c else unicode_isalnum c.

(** [\w] in a [str] pattern *)
Definition is_word (c : char) : bool := isalnum c || (c =? chr "_")%N.

Definition ascii_lower (c : char) : char :=
  if ((65 <=? c) && (c <=? 90))%N then (c + 32)%N else c.

(** [s.lower()] *)
Definition lower (s : str) : str :=
  if forallb is_ascii s then map ascii_lower s else unicode_lower s.

(** ** TextSanitizer *)

(** The punctuation that the negated set of the last [re.sub] of
    [sanitize_text_input] lets through besides [\w] and [\s]: hyphen, period,
    comma, colon, semicolon, parentheses, both quotes, slash, ampersand,
    percent, hash, at, exclamation mark. *)
Definition safe_punctuation : list char :=
  lit "-.,:;()" ++ [SQUOTE; DQUOTE] ++ lit "/&%#@!".

Definition is_safe (c : char) : bool :=
  is_word c || isspace c || has_char c safe_punctuation.

(** The body of [sanitize_text_input] once [text] is a non-empty string. *)
Definition sanitize_str (text : str) : str :=
  let text := replace (chr "]") (chr ")") (replace (chr "[") (chr "(") text) in
  let text := replace (chr "}") (chr ")") (replace (chr "{") (chr "(") text) in
  let text := replace BACKSLASH (chr "/") text in
  let text := replace (chr "|") (chr "-") text in
  let text := replace (chr "^") SP text in
  let text := replace (chr "$") SP text in
  let text := replace (chr "*") SP text in
  let text := replace (chr "+") SP text in
  let text := replace (chr "?") SP text in
  let text := map (fun c => if is_safe c then c else SP) text in
  strip (sub_space_runs text).

Definition sanitize_text_input (text : value) : str :=
  if negb (truthy text) then []
  else sanitize_str (py_str text).

(** [clean_text].  The two substitutions under [# Normalize quotes] are written
    with straight quotes in the source.  The first pattern is the set [[""]],
    which replaces a double quote by itself.  The second pattern is written as
    the two adjacent literals [r'['] and [']']: Python joins them into the
    pattern of the two characters [[] and []], which [re] rejects as an
    unterminated set, so the call raises [re.error] for every text that reaches
    it.  [None] is that exception leaving [clean_text]. *)
Definition clean_text (text : str) : option str :=
  if is_empty text then Some []
  else
    let text :=
      if has_char (chr "<") text && has_char (chr ">") text
      then html_get_text text else text in
    let text := sub_space_runs text in
    let text := sub_blank_lines text in
    let text := sub_period_runs text in
    text ← re_sub_char_set ([chr "["; DQUOTE; DQUOTE; chr "]"]) DQUOTE text;
    text ← re_sub_char_set (lit "[" ++ lit "]") SQUOTE text;
    Some (strip text).

(** ** LegalClassifier *)

Record citation_check := {
  cc_citation : str;
  cc_valid : bool;
  cc_authority_level : str
}.

Record Metadata := {
  md_court_level : str;
  md_jurisdiction : str;
  md_legal_areas : list str;
  md_authority_weight : float;
  md_binding_jurisdictions : list str;
  md_citations_extracted : list str;
  md_citations_validated : list citation_check
}.

(** [self.court_hierarchy] *)
Definition court_hierarchy : gmap (list N) float :=
  {[ lit "supreme" := 1.0%float;
     lit "appellate" := 0.8%float;
     lit "district" := 0.6%float;
     lit "administrative" := 0.4%float;
     lit "municipal" := 0.2%float;
     lit "unknown" := 0.1%float ]}.

(** [self.legal_area_patterns], in insertion order. *)
Definition legal_area_patterns : list (str * list str) :=
  [ (lit "constitutional",
      map lit [ "constitutional\s+law"; "first\s+amendment"; "fourteenth\s+amendment";
                "due\s+process"; "equal\s+protection"; "bill\s+of\s+rights" ]);
    (lit "contract",
      map lit [ "contract\s+law"; "breach\s+of\s+contract"; "consideration";
                "offer\s+and\s+acceptance"; "contractual\s+obligation" ]);
    (lit "tort",
      map lit [ "tort\s+law"; "negligence"; "personal\s+injury"; "defamation";
                "intentional\s+tort"; "strict\s+liability" ]);
    (lit "criminal",
      map lit [ "criminal\s+law"; "criminal\s+procedure"; "evidence";
                "sentencing"; "fourth\s+amendment" ]);
    (lit "corporate",
      map lit [ "corporate\s+law"; "securities"; "mergers\s+and\s+acquisitions";
                "corporate\s+governance"; "fiduciary\s+duty" ]);
    (lit "property",
      map lit [ "property\s+law"; "real\s+estate"; "intellectual\s+property";
                "trademark"; "copyright"; "patent" ]) ]%string.

(** [self.citation_patterns] *)
Definition citation_patterns : list str :=
  map lit [ "\d+\s+U\.S\.\s+\d+"; "\d+\s+S\.\s+Ct\.\s+\d+"; "\d+\s+F\.\d+d\s+\d+";
            "\d+\s+F\.\s+Supp\.\s+\d+"; "\d+\s+[A-Z][a-z]*\s+\d+" ]%string.

(** [any(term in text for term in terms)] *)
Definition any_in (terms : list string) (text : str) : bool :=
  existsb (fun term => contains (lit term) text) terms.

Definition default_metadata : Metadata :=
  {| md_court_level := lit "unknown";
     md_jurisdiction := lit "unknown";
     md_legal_areas := [];
     md_authority_weight := 0.1%float;
     md_binding_jurisdictions := [];
     md_citations_extracted := [];
     md_citations_validated := [] |}.

Definition extract_legal_metadata (text : str) (case_name : str) : Metadata :=
  if is_empty text then default_metadata
  else
    let text_lower := lower text in
    let court_level :=
      if any_in ["supreme court"; "scotus"] text_lower then lit "supreme"
      else if any_in ["court of appeals"; "appellate"; "circuit"] text_lower then lit "appellate"
      else if any_in ["district court"; "trial court"] text_lower then lit "district"
      else if any_in ["administrative"; "agency"] text_lower then lit "administrative"
      else lit "unknown" in
    let jurisdiction :=
      if any_in ["united states"; "federal"; "u.s."] text_lower then lit "federal"
      else if any_in ["state"; "commonwealth"] text_lower then lit "state"
      else if any_in ["municipal"; "city"; "county"] text_lower then lit "local"
      else lit "unknown" in
    let legal_areas :=
      list_of_set
        (map fst (filter (fun ap => existsb (fun p => re_search p text_lower) (snd ap) = true)
                         legal_area_patterns)) in
    let authority_weight := default 0.1%float (court_hierarchy !! court_level) in
    let citations_extracted :=
      list_of_set (flat_map (fun p => re_findall_ignorecase p text) citation_patterns) in
    {| md_court_level := court_level;
       md_jurisdiction := jurisdiction;
       md_legal_areas := legal_areas;
       md_authority_weight := authority_weight;
       md_binding_jurisdictions := [];
       md_citations_extracted := citations_extracted;
       md_citations_validated :=
         map (fun c => {| cc_citation := c; cc_valid := true;
                          cc_authority_level := court_level |}) citations_extracted |}.

(** [determine_court_level] and [calculate_court_authority_weight], used by the
    conversion of court rows. *)
Definition determine_court_level (court_name : str) : str :=
  let court_name_lower := lower court_name in
  if contains (lit "supreme") court_name_lower then lit "supreme"
  else if any_in ["appeal"; "appellate"; "circuit"] court_name_lower then lit "appellate"
  else if any_in ["district"; "trial"; "superior"] court_name_lower then lit "district"
  else lit "unknown".

Definition court_weights : gmap (list N) float :=
  {[ lit "supreme" := 1.0%float;
     lit "appellate" := 0.8%float;
     lit "district" := 0.6%float;
     lit "unknown" := 0.3%float ]}.

Definition calculate_court_authority_weight (court_name : str) : float :=
  default 0.3%float (court_weights !! determine_court_level court_name).

End Program.

(** ** Documents *)

(** [LegalDocument]; the fields carry the prefix [doc_]. *)
Record LegalDocument := {
  doc_id : str;
  doc_case_name : str;
  doc_citation : str;
  doc_court : str;
  doc_court_level : str;
  doc_jurisdiction : str;
  doc_date_decided : value;
  doc_full_text : str;
  doc_plain_text : str;
  doc_legal_areas : list str;
  doc_authority_weight : float;
  doc_binding_jurisdictions : list str;
  doc_citations_extracted : list str;
  doc_citations_validated : list citation_check;
  doc_embedding : option vector;
  doc_chunk_embeddings : option (list vector);
  doc_metadata : Metadata
}.

Section Documents.
Context `{RT : Runtime}.

(** ** SemanticChunker *)

(** The body of the loop over the sentences of an over-long paragraph.  The
    state is [(chunks, current_chunk)]. *)
Definition add_sentence (max_chunk_size : Z) (st : list str * str) (sentence : str)
  : list str * str :=
  let '(chunks, current_chunk) := st in
  if (len current_chunk + len sentence >? max_chunk_size)%Z then
    if negb (is_empty current_chunk)
    then (chunks ++ [strip current_chunk], sentence)
    else (chunks ++ [sentence], current_chunk)
  else (chunks, current_chunk ++ [SP] ++ sentence).

(** The body of the loop over the paragraphs. *)
Definition add_paragraph (max_chunk_size : Z) (st : list str * str) (paragraph : str)
  : list str * str :=
  let paragraph := strip paragraph in
  if is_empty paragraph then st
  else
    let '(chunks, current_chunk) := st in
    if (len current_chunk + len paragraph >? max_chunk_size)%Z then
      if negb (is_empty current_chunk)
      then (chunks ++ [strip current_chunk], paragraph)
      else fold_left (add_sentence max_chunk_size) (sent_tokenize paragraph) st
    else (chunks, current_chunk ++ [NL; NL] ++ paragraph).

Definition chunk_legal_document (text : str) (max_chunk_size : Z) : list str :=
  let '(chunks, current_chunk) :=
    fold_left (add_paragraph max_chunk_size) (split_blank text) ([], []) in
  if negb (is_empty current_chunk) then chunks ++ [strip current_chunk] else chunks.

(** The collaborator keeps the content of a paragraph: the sentences of
    [sent_tokenize] are the paragraph cut at sentence ends, the white space
    between two sentences left out. *)
Definition tokenizer_keeps_content : Prop :=
  ∀ p : str, non_whitespace (concat (sent_tokenize p)) = non_whitespace p.

(** The content held by a state of the loop: the chunks so far, then the
    running buffer. *)
Definition state_content (st : list str * str) : str :=
  non_whitespace (concat (fst st) ++ snd st).

(** ** ContextBudgeter *)

(** The note spliced into a budgeted text: the bracketed marker between two
    pairs of line feeds. *)
Definition TRUNCATION_MARKER : str :=
  lit "[... CONTENT TRUNCATED FOR DEEPSEEK R1 OPTIMIZATION ...]".

Definition TRUNCATION_NOTE : str := [NL; NL] ++ TRUNCATION_MARKER ++ [NL; NL].

Definition max_tokens : Z := 32000.

Definition optimize_for_deepseek_r1 (text : str) : str :=
  match deepseek_tokenizer with
  | None => text
  | Some tokenizer =>
      let tokens := encode tokenizer text in
      if (len tokens <=? max_tokens)%Z then text
      else
        let keep_start := Z.to_nat (max_tokens / 3) in
        let keep_end := Z.to_nat (max_tokens / 3) in
        let start_tokens := firstn keep_start tokens in
        let end_tokens := last_n keep_end tokens in
        let optimized_text := decode tokenizer (start_tokens ++ end_tokens) in
        let cut := length (decode tokenizer start_tokens) in
        firstn cut optimized_text ++ TRUNCATION_NOTE ++ skipn cut optimized_text
  end.

(** ** EmbeddingDispatcher *)

Definition generate_embeddings (texts : list str) : list vector :=
  if is_empty texts then []
  else
    match mapM embedding_encode (batches 32 texts) with
    | Some per_batch => concat per_batch
    | None => []
    end.

(** ** Per-document processing *)

(** [f"{case_name}_{citation}"] hashed. *)
Definition document_id (case_name citation : str) : str :=
  md5_hexdigest (case_name ++ lit "_" ++ citation).

(** The statements of [process_legal_document] that follow [clean_text]: the
    budgeted text, the metadata, the identifier, the [LegalDocument] and its
    embeddings. *)
Definition build_legal_document (doc_data : record)
    (case_name citation court full_text plain_text : str) : LegalDocument :=
  let optimized_text := optimize_for_deepseek_r1 plain_text in
  let metadata := extract_legal_metadata plain_text case_name in
  let chunks := chunk_legal_document optimized_text 1000 in
  let chunk_embeddings :=
    if negb (is_empty chunks) then Some (generate_embeddings chunks) else None in
  let embedding :=
    match chunk_embeddings with
    | Some (v :: vs) => Some (np_mean (v :: vs))
    | _ => None
    end in
  {| doc_id := document_id case_name citation;
     doc_case_name := case_name;
     doc_citation := citation;
     doc_court := court;
     doc_court_level := md_court_level metadata;
     doc_jurisdiction := md_jurisdiction metadata;
     doc_date_decided := dict_get doc_data "date_decided" (VStr []);
     doc_full_text := full_text;
     doc_plain_text := optimized_text;
     doc_legal_areas := md_legal_areas metadata;
     doc_authority_weight := md_authority_weight metadata;
     doc_binding_jurisdictions := md_binding_jurisdictions metadata;
     doc_citations_extracted := md_citations_extracted metadata;
     doc_citations_validated := md_citations_validated metadata;
     doc_embedding := embedding;
     doc_chunk_embeddings := chunk_embeddings;
     doc_metadata := metadata |}.

(** The three display fields of a raw record, sanitized:
    [self.sanitize_text_input(doc_data.get(key, default))]. *)
Definition record_case_name (doc_data : record) : str :=
  sanitize_text_input (dict_get doc_data "case_name" (VStr (lit "Unknown Case"))).

Definition record_citation (doc_data : record) : str :=
  sanitize_text_input (dict_get doc_data "citation" (VStr [])).

Definition record_court (doc_data : record) : str :=
  sanitize_text_input (dict_get doc_data "court" (VStr (lit "Unknown Court"))).

(** The handler of [process_legal_document] when the message of the exception
    names an unterminated character set: before its [return None] it logs
    [doc_data.get('plain_text', '')[:200]] and
    [doc_data.get('full_text', '')[:200]], and a value without a slice raises
    there, out of the handler and out of the function. *)
Definition regex_error_handler (doc_data : record) : outcome (option LegalDocument) :=
  if sliceable (dict_get doc_data "plain_text" (VStr []))
     && sliceable (dict_get doc_data "full_text" (VStr []))
  then Returns None
  else Raises.

(** [process_legal_document].  [Returns None] is its [return None], reached
    when the record has no text and through the handler of the [try] block:
    on a value that is not text [clean_text] raises a [TypeError], which the
    handler only logs; on a text that [clean_text] cannot clean the error is
    that of the pattern, and the handler goes through its debugging branch. *)
Definition process_legal_document (doc_data : record) : outcome (option LegalDocument) :=
  let case_name := record_case_name doc_data in
  let citation := record_citation doc_data in
  let court := record_court doc_data in
  let full_text := dict_get doc_data "plain_text" (dict_get doc_data "html" (VStr [])) in
  if negb (truthy full_text) then Returns None
  else
    match full_text with
    | VStr full_text =>
        match clean_text full_text with
        | Some plain_text =>
            Returns
              (Some (build_legal_document doc_data case_name citation court full_text
                       plain_text))
        | None => regex_error_handler doc_data
        end
    | _ => Returns None
    end.

(** ** Conversion of CSV rows *)

Definition ARROW : char := 8594%N.

Definition convert_citation_row_to_document (row : record) : record :=
  let citing_opinion :=
    sanitize_text_input (dict_get row "citing_opinion" (VStr (lit "Unknown"))) in
  let cited_opinion :=
    sanitize_text_input (dict_get row "cited_opinion" (VStr (lit "Unknown"))) in
  let citation_id := sanitize_text_input (dict_get row "id" (VStr [])) in
  list_to_map
    [ ("id", VStr (lit "citation_" ++ citation_id));
      ("case_name",
        VStr (lit "Citation Network: " ++ citing_opinion ++ [SP; ARROW; SP] ++ cited_opinion));
      ("citation", VStr (lit "Citation ID: " ++ citation_id));
      ("court", VStr (lit "Citation Database"));
      ("court_level", VStr (lit "database"));
      ("jurisdiction", VStr (lit "multi_jurisdiction"));
      ("date_decided", VStr []);
      ("full_text",
        VStr (lit "Citation relationship: " ++ citing_opinion ++ lit " cites " ++ cited_opinion));
      ("plain_text",
        VStr (lit "This citation links opinion " ++ citing_opinion ++ lit " to "
              ++ cited_opinion ++ lit "."));
      ("legal_areas", VList [lit "citation_analysis"]);
      ("authority_weight", VFloat 0.5%float);
      ("binding_jurisdictions", VList [lit "multi_jurisdiction"]);
      ("citations_extracted", VList [cited_opinion]);
      ("citations_validated", VList []) ]%string.

Definition convert_court_row_to_document (row : record) : record :=
  let full_name :=
    sanitize_text_input (dict_get row "full_name" (VStr (lit "Unknown Court"))) in
  let jurisdiction :=
    sanitize_text_input (dict_get row "jurisdiction" (VStr (lit "unknown"))) in
  let court_id := sanitize_text_input (dict_get row "id" (VStr [])) in
  let court_url := sanitize_text_input (dict_get row "url" (VStr [])) in
  list_to_map
    [ ("id", VStr court_id);
      ("case_name", VStr (lit "Court Information: " ++ full_name));
      ("citation", VStr court_id);
      ("court", VStr full_name);
      ("court_level", VStr (determine_court_level full_name));
      ("jurisdiction", VStr jurisdiction);
      ("date_decided", VStr []);
      ("full_text",
        VStr (lit "Court: " ++ full_name ++ [NL] ++ lit "Jurisdiction: " ++ jurisdiction
              ++ [NL] ++ lit "URL: " ++ court_url));
      ("plain_text", VStr (lit "This is " ++ full_name ++ lit " in " ++ jurisdiction ++ lit "."));
      ("legal_areas", VList [lit "court_administration"]);
      ("authority_weight", VFloat (calculate_court_authority_weight full_name));
      ("binding_jurisdictions", VList [jurisdiction]);
      ("citations_extracted", VList []);
      ("citations_validated", VList []) ]%string.

Definition convert_csv_row_to_document (row : record) (file_path : str) : record :=
  if contains (lit "courts") file_path then convert_court_row_to_document row
  else if contains (lit "citations") file_path then convert_citation_row_to_document row
  else row.

End Documents.

(** ** IndexWriter: the relational cache *)

(** A row of the table [documents] ([id TEXT PRIMARY KEY]).  The columns
    written through [json.dumps] keep the value that is serialised. *)
Record document_row := {
  row_id : str;
  row_case_name : str;
  row_citation : str;
  row_court : str;
  row_court_level : str;
  row_jurisdiction : str;
  row_date_decided : value;
  row_full_text : str;
  row_plain_text : str;
  row_legal_areas : list str;
  row_authority_weight : float;
  row_binding_jurisdictions : list str;
  row_citations_extracted : list str;
  row_citations_validated : list citation_check;
  row_metadata : Metadata
}.

(** A row of the table [embeddings], which declares no key. *)
Record embedding_row := {
  er_document_id : str;
  er_chunk_id : nat;
  er_embedding : vector;
  er_chunk_text : str
}.

(** The two tables, rows in insertion order. *)
Record sqlite_db := {
  documents : list document_row;
  embeddings : list embedding_row
}.

Definition empty_db : sqlite_db := {| documents := []; embeddings := [] |}.

Definition document_row_of (doc : LegalDocument) : document_row :=
  {| row_id := doc_id doc;
     row_case_name := doc_case_name doc;
     row_citation := doc_citation doc;
     row_court := doc_court doc;
     row_court_level := doc_court_level doc;
     row_jurisdiction := doc_jurisdiction doc;
     row_date_decided := doc_date_decided doc;
     row_full_text := doc_full_text doc;
     row_plain_text := doc_plain_text doc;
     row_legal_areas := doc_legal_areas doc;
     row_authority_weight := doc_authority_weight doc;
     row_binding_jurisdictions := doc_binding_jurisdictions doc;
     row_citations_extracted := doc_citations_extracted doc;
     row_citations_validated := doc_citations_validated doc;
     row_metadata := doc_metadata doc |}.

(** [INSERT OR REPLACE INTO documents]: the row that holds the primary key is
    deleted, then the new row is inserted. *)
Definition insert_or_replace_document (row : document_row) (rows : list document_row)
  : list document_row :=
  filter (fun r => row_id r ≠ row_id row) rows ++ [row].

(** The rows of one document's chunk embeddings: [f"Chunk {i}"] is the text
    column. *)
Definition embedding_rows (doc : LegalDocument) : list embedding_row :=
  match doc_chunk_embeddings doc with
  | Some chunk_embeddings =>
      imap (fun i embedding =>
              {| er_document_id := doc_id doc;
                 er_chunk_id := i;
                 er_embedding := embedding;
                 er_chunk_text := lit "Chunk " ++ str_of_nat i |})
           chunk_embeddings
  | None => []
  end.


(** What [sqlite3] accepts as a parameter.  A text is bound as UTF-8, which
    has no encoding for a surrogate code point; a float is bound as it is; a
    list is of no supported type.  Binding a parameter that is not accepted
    raises. *)
Definition is_surrogate (c : char) : bool := ((55296 <=? c) && (c <=? 57343))%N.

Definition utf8_encodable (s : str) : bool := forallb (fun c => negb (is_surrogate c)) s.

Definition sqlite_binds (v : value) : bool :=
  match v with
  | VStr s => utf8_encodable s
  | VFloat _ => true
  | VList _ => false
  end.

(** The parameters of the [INSERT] into [documents] that are passed as they
    are; the other columns are written through [json.dumps], which escapes to
    ASCII, and the weight is a float. *)
Definition row_binds (row : document_row) : bool :=
  utf8_encodable (row_id row) && utf8_encodable (row_case_name row)
  && utf8_encodable (row_citation row) && utf8_encodable (row_court row)
  && utf8_encodable (row_court_level row) && utf8_encodable (row_jurisdiction row)
  && sqlite_binds (row_date_decided row)
  && utf8_encodable (row_full_text row) && utf8_encodable (row_plain_text row).

(** The body of the loop of [store_in_sqlite], a [try] of its own for every
    document: when the [INSERT] into [documents] raises, the handler logs and
    the loop goes on, nothing of the document stored.  With no key on
    [embeddings], [INSERT OR REPLACE] there is a plain insertion. *)
Definition store_document (db : sqlite_db) (doc : LegalDocument) : sqlite_db :=
  if row_binds (document_row_of doc) then
    {| documents := insert_or_replace_document (document_row_of doc) (documents db);
       embeddings := embeddings db ++ embedding_rows doc |}
  else db.

Definition store_in_sqlite (db : sqlite_db) (legal_docs : list LegalDocument) : sqlite_db :=
  fold_left store_document legal_docs db.

(** The documents of a batch whose [INSERT] into [documents] does not raise. *)
Definition stored (legal_docs : list LegalDocument) : list LegalDocument :=
  filter (fun doc => row_binds (document_row_of doc) = true) legal_docs.

(** ** IndexWriter: the similarity index *)

Inductive payload :=
  | DocumentPayload (case_name citation court court_level jurisdiction : str)
      (date_decided : value) (legal_areas : list str) (authority_weight : float)
      (binding_jurisdictions : list str) (citations_count text_length chunk_count : nat)
  | ChunkPayload (parent_document_id : str) (chunk_index : nat)
      (case_name court_level jurisdiction : str) (legal_areas : list str)
      (authority_weight : float).

(** [PointStruct] *)
Record point := {
  point_id : Z;
  point_vector : vector;
  point_payload : payload
}.

(** [client.upsert]: a point replaces the stored point of the same id. *)
Definition upsert_point (collection : list point) (p : point) : list point :=
  filter (fun q => point_id q ≠ point_id p) collection ++ [p].

Section Index.
Context `{RT : Runtime}.

(** [hash(doc.id) % (2**63)] *)
Definition document_point_id (doc : LegalDocument) : Z :=
  py_hash (doc_id doc) `mod` 2 ^ 63.

(** [hash(f"{doc.id}_chunk_{i}") % (2**63)] *)
Definition chunk_point_id (doc : LegalDocument) (i : nat) : Z :=
  py_hash (doc_id doc ++ lit "_chunk_" ++ str_of_nat i) `mod` 2 ^ 63.

(** The points of one document: none when it has no embedding. *)
Definition document_points (doc : LegalDocument) : list point :=
  match doc_embedding doc with
  | None => []
  | Some embedding =>
      let chunk_embeddings := default [] (doc_chunk_embeddings doc) in
      {| point_id := document_point_id doc;
         point_vector := embedding;
         point_payload :=
           DocumentPayload (doc_case_name doc) (doc_citation doc) (doc_court doc)
             (doc_court_level doc) (doc_jurisdiction doc) (doc_date_decided doc)
             (doc_legal_areas doc) (doc_authority_weight doc)
             (doc_binding_jurisdictions doc) (length (doc_citations_extracted doc))
             (length (doc_plain_text doc)) (length chunk_embeddings) |}
      :: imap (fun i chunk_embedding =>
                 {| point_id := chunk_point_id doc i;
                    point_vector := chunk_embedding;
                    point_payload :=
                      ChunkPayload (doc_id doc) i (doc_case_name doc) (doc_court_level doc)
                        (doc_jurisdiction doc) (doc_legal_areas doc)
                        (doc_authority_weight doc) |})
              chunk_embeddings
  end.

Definition store_in_qdrant (collection : list point) (legal_docs : list LegalDocument)
  : list point :=
  if negb qdrant_client then collection
  else fold_left upsert_point (flat_map document_points legal_docs) collection.

End Index.

(** ** The run: batches and checkpoints *)

(** The sizes that matter to the checkpoints: how many documents were
    gathered, and how long each flushed batch was. *)
Definition step_sizes (v : nat * list nat) (n : nat) : nat * list nat :=
  let gathered := fst v + n in
  (gathered, if 1000 <=? gathered then snd v ++ [Nat.min 1000 gathered] else snd v).

(** The loop of [process_courtlistener_files] over the records of the files,
    for any per-document processor and any pair of stores; [completion] is the
    order in which [as_completed] hands back the futures of one batch. *)
Section Checkpoints.
Context {Raw Doc Store : Type}.
Variable process_document : Raw -> outcome (option Doc).
Variable flush : Store -> list Doc -> Store.
Variable completion :
  list (outcome (option Doc)) -> list (outcome (option Doc)).

Record run_state := {
  all_legal_docs : list Doc;
  stores : Store;
  processed_documents : nat;
  (** the argument of every call of the two stores, oldest first *)
  flush_log : list (list Doc)
}.

(** The loop [for future in as_completed(futures)]: the documents appended
    until [future.result()] raises, and whether it did.  A future that
    returned [None] appends nothing. *)
Fixpoint gather (results : list (outcome (option Doc))) : list Doc * bool :=
  match results with
  | [] => ([], false)
  | Raises :: _ => ([], true)
  | Returns legal_doc :: rest =>
      let '(docs, raised) := gather rest in
      (match legal_doc with Some doc => doc :: docs | None => docs end, raised)
  end.

(** One batch of a file: process its records, then the checkpoint test.  The
    flag tells that an exception left the batch, before that test. *)
Definition process_batch (st : run_state) (batch : list Raw) : run_state * bool :=
  let '(docs, raised) := gather (completion (map process_document batch)) in
  let all_docs := all_legal_docs st ++ docs in
  if raised then
    ({| all_legal_docs := all_docs;
        stores := stores st;
        processed_documents := processed_documents st;
        flush_log := flush_log st |}, true)
  else if 1000 <=? length all_docs then
    ({| all_legal_docs := all_docs;
        stores := flush (stores st) (last_n 1000 all_docs);
        processed_documents := processed_documents st + length (last_n 1000 all_docs);
        flush_log := flush_log st ++ [last_n 1000 all_docs] |}, false)
  else
    ({| all_legal_docs := all_docs;
        stores := stores st;
        processed_documents := processed_documents st;
        flush_log := flush_log st |}, false).

(** The batches of one file, in order; an exception that leaves a batch
    reaches the handler of the file, which logs it, and the batches that
    remain are not processed. *)
Fixpoint process_batches (st : run_state) (bs : list (list Raw)) : run_state :=
  match bs with
  | [] => st
  | batch :: rest =>
      let '(st', raised) := process_batch st batch in
      if raised then st' else process_batches st' rest
  end.

(** The records of one file, in batches of 100. *)
Definition process_file_records (st : run_state) (docs : list Raw) : run_state :=
  process_batches st (batches 100 docs).

(** [# Store remaining documents] *)
Definition store_remaining (st : run_state) : run_state :=
  let remaining := length (all_legal_docs st) mod 1000 in
  if negb (is_empty (all_legal_docs st)) && (0 <? remaining) then
    {| all_legal_docs := all_legal_docs st;
       stores := flush (stores st) (last_n remaining (all_legal_docs st));
       processed_documents := processed_documents st;
       flush_log := flush_log st ++ [last_n remaining (all_legal_docs st)] |}
  else st.

(** The whole loop over the files whose records were read. *)
Definition run_files (init : Store) (files : list (list Raw)) : run_state :=
  store_remaining
    (fold_left process_file_records files
       {| all_legal_docs := []; stores := init; processed_documents := 0; flush_log := [] |}).

(** What the statements about a run observe. *)
Definition sizes (st : run_state) : nat * list nat :=
  (length (all_legal_docs st), map length (flush_log st)).

Definition succeeds (d : Raw) : Prop := ∃ doc, process_document d = Returns (Some doc).

End Checkpoints.

Arguments all_legal_docs {Doc Store} _.
Arguments stores {Doc Store} _.
Arguments processed_documents {Doc Store} _.
Arguments flush_log {Doc Store} _.

(** A downloaded file: its path and the records or rows decoded from it. *)
Record archive_file := {
  file_path : str;
  file_entries : list (gmap string value)
}.

Definition ends_with (suffix s : str) : bool := starts_with (rev suffix) (rev s).

Section Run.
Context `{RT : Runtime}.
Variable completion :
  list (outcome (option LegalDocument)) -> list (outcome (option LegalDocument)).

(** The records of a file by its extension; [None] is an unsupported type.
    Rows of a [.csv.bz2] file are converted, and empty results dropped. *)
Definition read_records (f : archive_file) : option (list record) :=
  if ends_with (lit ".tar.gz") (file_path f) then Some (file_entries f)
  else if ends_with (lit ".json.gz") (file_path f) then Some (file_entries f)
  else if ends_with (lit ".json") (file_path f) then Some (file_entries f)
  else if ends_with (lit ".csv.bz2") (file_path f) then
    Some (filter (fun d : record => d ≠ ∅)
            (map (fun row => convert_csv_row_to_document row (file_path f)) (file_entries f)))
  else None.

(** The two stores side by side. *)
Definition flush_stores (s : sqlite_db * list point) (legal_docs : list LegalDocument)
  : sqlite_db * list point :=
  (store_in_sqlite (fst s) legal_docs, store_in_qdrant (snd s) legal_docs).

Definition process_courtlistener_files (init : sqlite_db * list point)
    (downloaded_files : list archive_file)
  : run_state (Doc := LegalDocument) (Store := sqlite_db * list point) :=
  run_files process_legal_document flush_stores completion init
    (omap read_records downloaded_files).

End Run.

(** A run that has gathered no document and called no store. *)
Definition untouched (init : sqlite_db * list point)
    (st : run_state (Doc := LegalDocument) (Store := sqlite_db * list point)) : Prop :=
  all_legal_docs st = [] ∧ flush_log st = [] ∧ stores st = init
  ∧ processed_documents st = 0.

(** ** A reference runtime

    Small stand-ins for the collaborators, used where a statement is run on a
    concrete input. *)

Definition is_terminator (c : char) : bool :=
  ((c =? 46) || (c =? 33) || (c =? 63))%N.

(** A sentence ends after a period, an exclamation mark or a question mark
    that a space follows; the space belongs to no sentence. *)
Fixpoint split_sentences_acc (cur : str) (s : str) : list str :=
  match s with
  | [] => if is_empty cur then [] else [rev cur]
  | c :: r =>
      match r with
      | c' :: r' =>
          if is_terminator c && (c' =? SP)%N
          then rev (c :: cur) :: split_sentences_acc [] r'
          else split_sentences_acc (c :: cur) r
      | [] => [rev (c :: cur)]
      end
  end.

Definition split_sentences (s : str) : list str := split_sentences_acc [] s.

(** One token per code point. *)
Definition char_tokenizer : Tokenizer :=
  {| encode := map Z.of_N; decode := map Z.to_N |}.

(** A polynomial hash that starts from the salt of the process. *)
Definition salted_hash (salt : Z) (s : str) : Z :=
  fold_left (fun h c => h * 31 + Z.of_N c)%Z s salt.

Definition reference_runtime (salt : Z) (tokenizer : option Tokenizer) : Runtime :=
  {| unicode_isalnum := fun _ => false;
     unicode_lower := fun s => s;
     repr_value := fun _ => [];
     sent_tokenize := split_sentences;
     deepseek_tokenizer := tokenizer;
     html_get_text := fun s => s;
     re_search := contains;
     re_findall_ignorecase := fun _ _ => [];
     list_of_set := remove_dups;
     md5_hexdigest := fun s => s;
     py_hash := salted_hash salt;
     embedding_encode := fun batch => Some (map (fun _ => [1.0%float]) batch);
     np_mean := fun vs => default [] (head vs);
     qdrant_client := true |}.

(** ** Sample records *)

(** Two records that differ in the spelling of the case name and in their
    text, stored one after the other in an empty cache. *)
Definition roe_first : gmap string value :=
  list_to_map [ ("case_name", VStr (lit "Roe v. Wade"));
                ("citation", VStr (lit "410 U.S. 113"));
                ("plain_text", VStr (lit "first text")) ]%string.

Definition roe_second : gmap string value :=
  list_to_map [ ("case_name", VStr (lit "  Roe   v. Wade "));
                ("citation", VStr (lit "410 U.S. 113"));
                ("plain_text", VStr (lit "second text, longer")) ]%string.

Definition roe_document : LegalDocument :=
  build_legal_document (RT := reference_runtime 0 None) roe_first (lit "Roe v. Wade")
    (lit "410 U.S. 113") (lit "Unknown Court") (lit "first text") (lit "first text").



(** The row that cites opinion 2 from opinion 1: the text of the converted
    record names no court, so the document built from it would weigh 0.1 at
    the court level [unknown]. *)
Definition citation_row_7 : gmap string value :=
  list_to_map [ ("citing_opinion", VStr (lit "1"));
                ("cited_opinion", VStr (lit "2"));
                ("id", VStr (lit "7")) ]%string.

(** Two float literals differ when comparing them computes to [false]. *)
Ltac float_differs :=
  let E := fresh "E" in
  intros E;
  match type of E with
  | _ = ?y => apply (f_equal (fun v => PrimFloat.eqb v y)) in E
  end;
  vm_compute in E; discriminate E.

(** ** What the further properties speak of *)

(** The characters that [sanitize_text_input] replaces one by one before its
    allow-list: brackets, braces, backslash, pipe, caret, dollar, asterisk,
    plus and question mark. *)
Definition pattern_metacharacters : list char :=
  lit "[]{}|^$*+?" ++ [BACKSLASH].

(** A text with a character that is not white space. *)
Definition nonblank (s : str) : Prop := Exists (fun c => isspace c = false) s.

Section ChunkShapes.
Context `{RT : Runtime}.

(** What a chunk may be, for the paragraphs [ps] of a text: within the limit
    plus the two line feeds that the length test leaves out, or one whole
    paragraph, or one sentence of one paragraph. *)
Definition is_paragraph (ps : list str) (c : str) : Prop :=
  ∃ p, In p ps ∧ c = strip p.

Definition is_sentence (ps : list str) (c : str) : Prop :=
  ∃ p s, In p ps ∧ In s (sent_tokenize (strip p)) ∧ (c = s ∨ c = strip s).

Definition chunk_allowed (max_chunk_size : Z) (ps : list str) (c : str) : Prop :=
  (len c ≤ max_chunk_size + 2)%Z ∨ is_paragraph ps c ∨ is_sentence ps c.

Definition buffer_allowed (max_chunk_size : Z) (ps : list str) (b : str) : Prop :=
  b = [] ∨ (len b ≤ max_chunk_size + 2)%Z ∨ is_paragraph ps b
  ∨ ∃ p s, In p ps ∧ In s (sent_tokenize (strip p)) ∧ b = s.

Definition state_allowed (max_chunk_size : Z) (ps : list str) (st : list str * str) : Prop :=
  Forall (chunk_allowed max_chunk_size ps) (fst st) ∧ buffer_allowed max_chunk_size ps (snd st).

(** The sentences that the collaborator returns for a stripped, non-empty
    paragraph all have a character that is not white space. *)
Definition tokenizer_gives_no_blank : Prop :=
  ∀ p : str, p ≠ [] → strip p = p → Forall nonblank (sent_tokenize p).

Definition state_nonblank (st : list str * str) : Prop :=
  Forall nonblank (fst st) ∧ (snd st = [] ∨ nonblank (snd st)).

End ChunkShapes.

(** ** Writing by key

    [INSERT OR REPLACE] on a primary key and [upsert] on a point id are the
    same operation on a list of rows: every row of the new row's key is
    dropped, the new row is appended. *)

Section Keyed.
Context {A K : Type} `{EqDecision K}.
Variable key : A -> K.

Definition put (l : list A) (x : A) : list A :=
  filter (fun r => key r <> key x) l ++ [x].

End Keyed.

(** ** What a run keeps count of

    What the counter of processed documents and the calls of the stores have
    to do with each other while the files are read, and a state that differs
    from an earlier one by gathered documents only. *)

Section Counted.
Context {Doc Store : Type}.

Definition counted (st : run_state (Doc := Doc) (Store := Store)) : Prop :=
  processed_documents st
  = 1000 * length (filter (fun b : list Doc => length b = 1000) (flush_log st))
  /\ list_sum (map length (flush_log st)) = processed_documents st.

Definition quiet (st st' : run_state (Doc := Doc) (Store := Store)) : Prop :=
  flush_log st' = flush_log st /\ processed_documents st' = processed_documents st
  /\ stores st' = stores st /\ length (all_legal_docs st) <= length (all_legal_docs st').

End Counted.

(** ** The files of a run: [download_courtlistener_data]

    The names of the files that a mode selects, before the URLs are
    validated; [mode] is [self.config.get('mode')], [None] when the key is
    missing, and [latest_date] is the configured date of the data. *)

(** [f"{name}-{latest_date}.csv.bz2"] *)
Definition dataset (name : string) (latest_date : str) : str :=
  lit name ++ lit "-" ++ latest_date ++ lit ".csv.bz2".

Definition datasets (mode : option str) (latest_date : str) : list str :=
  let is_mode (m : string) : bool := bool_decide (mode = Some (lit m)) in
  if is_mode "test" then
    [ dataset "courts" latest_date ]
  else if is_mode "sample" then
    [ dataset "courts" latest_date;
      dataset "citations" latest_date ]
  else if is_mode "core" || is_mode "mvp" then
    [ dataset "courts" latest_date;
      dataset "citations" latest_date;
      dataset "opinion-clusters" latest_date;
      dataset "dockets" latest_date;
      dataset "opinions" latest_date ]
  else if is_mode "enhanced" || is_mode "professional" then
    [ dataset "courts" latest_date;
      dataset "citations" latest_date;
      dataset "opinion-clusters" latest_date;
      dataset "dockets" latest_date;
      dataset "opinions" latest_date;
      dataset "oral-arguments" latest_date;
      dataset "parentheticals" latest_date;
      dataset "citation-map" latest_date;
      dataset "fjc-integrated-database" latest_date ]
  else if is_mode "analytics" || is_mode "enterprise" then
    [ dataset "courts" latest_date;
      dataset "citations" latest_date;
      dataset "opinion-clusters" latest_date;
      dataset "dockets" latest_date;
      dataset "opinions" latest_date;
      dataset "oral-arguments" latest_date;
      dataset "parentheticals" latest_date;
      dataset "citation-map" latest_date;
      dataset "fjc-integrated-database" latest_date;
      dataset "people-db-people" latest_date;
      dataset "people-db-positions" latest_date;
      dataset "people-db-educations" latest_date;
      dataset "people-db-political-affiliations" latest_date;
      dataset "people-db-schools" latest_date;
      dataset "people-db-races" latest_date;
      dataset "financial-disclosures" latest_date;
      dataset "financial-disclosures-positions" latest_date;
      dataset "financial-disclosures-reimbursements" latest_date ]
  else if is_mode "research" || is_mode "complete" then
    [ dataset "courts" latest_date;
      dataset "citations" latest_date;
      dataset "opinion-clusters" latest_date;
      dataset "dockets" latest_date;
      dataset "opinions" latest_date;
      dataset "oral-arguments" latest_date;
      dataset "parentheticals" latest_date;
      dataset "citation-map" latest_date;
      dataset "fjc-integrated-database" latest_date;
      dataset "people-db-people" latest_date;
      dataset "people-db-positions" latest_date;
      dataset "people-db-educations" latest_date;
      dataset "people-db-political-affiliations" latest_date;
      dataset "people-db-schools" latest_date;
      dataset "people-db-races" latest_date;
      dataset "financial-disclosures" latest_date;
      dataset "financial-disclosures-positions" latest_date;
      dataset "financial-disclosures-reimbursements" latest_date;
      dataset "financial-disclosures-spousal-income" latest_date;
      dataset "financial-disclosures-debts" latest_date;
      dataset "financial-disclosures-agreements" latest_date;
      dataset "financial-disclosures-non-investment-income" latest_date;
      dataset "financial-disclosures-gifts" latest_date;
      dataset "courthouses" latest_date;
      dataset "court-appeals-to" latest_date;
      dataset "originating-court-information" latest_date ]
  else
    [ dataset "courts" latest_date;
      dataset "citations" latest_date;
      dataset "opinion-clusters" latest_date;
      dataset "dockets" latest_date;
      dataset "opinions" latest_date ].

(** A process whose embedding model raises on a batch that is not full. *)
Definition short_batch_failure_runtime : Runtime :=
  {| unicode_isalnum := fun _ => false;
     unicode_lower := fun s => s;
     repr_value := fun _ => [];
     sent_tokenize := split_sentences;
     deepseek_tokenizer := None;
     html_get_text := fun s => s;
     re_search := contains;
     re_findall_ignorecase := fun _ _ => [];
     list_of_set := remove_dups;
     md5_hexdigest := fun s => s;
     py_hash := salted_hash 0;
     embedding_encode :=
       fun batch => if length batch <? 32 then None
                    else Some (map (fun _ => [1.0%float]) batch);
     np_mean := fun vs => default [] (head vs);
     qdrant_client := true |}.

(** ** More sample documents *)

(** The later record of [Roe v. Wade], built into a document, and a third
    one whose date is a list, which [sqlite3] cannot bind. *)
Definition roe_later : LegalDocument :=
  build_legal_document (RT := reference_runtime 0 None) roe_second (lit "Roe v. Wade")
    (lit "410 U.S. 113") (lit "Unknown Court") (lit "second text, longer")
    (lit "second text, longer").

Definition roe_list_date : LegalDocument :=
  build_legal_document (RT := reference_runtime 0 None)
    (<[ "date_decided"%string := VList [lit "1973"] ]> roe_first) (lit "Roe v. Wade")
    (lit "410 U.S. 113") (lit "Unknown Court") (lit "third text") (lit "third text").

(* ===================================================================== *)
(** * Part II. Properties *)
(* ===================================================================== *)

(** ** White space and [strip] *)

(** [lstrip] drops a prefix of white space. *)
Lemma lstrip_suffix (s : str) :
  ∃ d, s = d ++ lstrip s ∧ Forall (fun c => isspace c = true) d.
Proof.
  induction s as [|c r IH]; simpl.
  - exists []. split; [reflexivity | constructor].
  - destruct (isspace c) eqn:Hc.
    + destruct IH as (d & Hd & Hsp). exists (c :: d). split.
      * simpl. congruence.
      * constructor; assumption.
    + exists []. split; [reflexivity | constructor].
Qed.

Lemma lstrip_head (s : str) c r : lstrip s = c :: r → isspace c = false.
Proof.
  induction s as [|a t IH]; simpl; [discriminate |].
  destruct (isspace a) eqn:Ha; [exact IH |].
  intros [= -> _]. exact Ha.
Qed.

Lemma lstrip_fixed (s : str) :
  match s with [] => True | c :: _ => isspace c = false end → lstrip s = s.
Proof. destruct s as [|c r]; simpl; [reflexivity |]. intros ->. reflexivity. Qed.

(** [rstrip] drops a suffix of white space. *)
Lemma rstrip_prefix (s : str) :
  ∃ d, s = rstrip s ++ d ∧ Forall (fun c => isspace c = true) d.
Proof.
  unfold rstrip. destruct (lstrip_suffix (rev s)) as (d & Hd & Hsp).
  exists (rev d). split.
  - rewrite <- rev_app_distr, <- Hd, rev_involutive. reflexivity.
  - apply Forall_rev. exact Hsp.
Qed.

Lemma rstrip_last (s : str) r c : rstrip s = r ++ [c] → isspace c = false.
Proof.
  unfold rstrip. intros H.
  apply (f_equal (@rev N)) in H. rewrite rev_involutive, rev_app_distr in H. simpl in H.
  eapply lstrip_head. exact H.
Qed.

Lemma rstrip_fixed (s : str) :
  (∀ r c, s = r ++ [c] → isspace c = false) → rstrip s = s.
Proof.
  intros H. unfold rstrip. rewrite lstrip_fixed; [apply rev_involutive |].
  destruct (rev s) as [|c r] eqn:Hr; [exact I |].
  apply (H (rev r) c).
  rewrite <- (rev_involutive s), Hr. reflexivity.
Qed.

(** What [strip] returns is some middle part of its argument, and neither
    starts nor ends with white space. *)
Lemma strip_middle (s : str) :
  ∃ d1 d2, s = d1 ++ strip s ++ d2
           ∧ Forall (fun c => isspace c = true) d1
           ∧ Forall (fun c => isspace c = true) d2.
Proof.
  unfold strip.
  destruct (rstrip_prefix s) as (d2 & H2 & Hs2).
  destruct (lstrip_suffix (rstrip s)) as (d1 & H1 & Hs1).
  exists d1, d2. split; [| split; assumption].
  rewrite app_assoc, <- H1. exact H2.
Qed.

Lemma strip_head (s : str) c r : strip s = c :: r → isspace c = false.
Proof. apply lstrip_head. Qed.

Lemma strip_last (s : str) r c : strip s = r ++ [c] → isspace c = false.
Proof.
  unfold strip. intros H.
  destruct (lstrip_suffix (rstrip s)) as (d & Hd & _).
  rewrite H, app_assoc in Hd.
  eapply rstrip_last. exact Hd.
Qed.

Lemma strip_fixed (s : str) :
  match s with [] => True | c :: _ => isspace c = false end →
  (∀ r c, s = r ++ [c] → isspace c = false) →
  strip s = s.
Proof.
  intros Hh Hl. unfold strip. rewrite (rstrip_fixed s Hl). apply lstrip_fixed, Hh.
Qed.

Lemma strip_idempotent (s : str) : strip (strip s) = strip s.
Proof.
  apply strip_fixed.
  - destruct (strip s) as [|c r] eqn:H; [exact I |]. eapply strip_head, H.
  - intros r c H. eapply strip_last, H.
Qed.

Lemma strip_length (s : str) : length (strip s) ≤ length s.
Proof.
  destruct (strip_middle s) as (d1 & d2 & H & _).
  rewrite H at 2. rewrite !length_app. lia.
Qed.

(** ** TextSanitizer *)

Lemma collapsed_weaken (s : str) : collapsed true s → collapsed false s.
Proof.
  destruct s as [|c r]; simpl; [trivial |].
  destruct (isspace c); [intros (H & _); discriminate | trivial].
Qed.

Lemma collapsed_any (b : bool) (s : str) : collapsed b s → collapsed false s.
Proof. destruct b; [apply collapsed_weaken | trivial]. Qed.

Lemma sub_space_runs_collapsed (b : bool) (s : str) :
  collapsed b (sub_space_runs_from b s).
Proof.
  revert b. induction s as [|c r IH]; intros b; simpl; [exact I |].
  destruct (isspace c) eqn:Hc.
  - destruct b; [apply IH |].
    simpl. split; [reflexivity | split; [reflexivity | apply IH]].
  - simpl. rewrite Hc. apply IH.
Qed.

Lemma collapsed_fixed (b : bool) (s : str) :
  collapsed b s → sub_space_runs_from b s = s.
Proof.
  revert b. induction s as [|c r IH]; intros b; simpl; [reflexivity |].
  destruct (isspace c) eqn:Hc.
  - intros (-> & -> & H). f_equal. apply IH, H.
  - intros H. f_equal. apply IH, H.
Qed.

Lemma collapsed_app_l (b : bool) (s t : str) : collapsed b (s ++ t) → collapsed b s.
Proof.
  revert b. induction s as [|c r IH]; intros b; simpl; [trivial |].
  destruct (isspace c).
  - intros (H1 & H2 & H3). repeat split; try assumption. eapply IH, H3.
  - apply IH.
Qed.

Lemma collapsed_app_r (b : bool) (s t : str) :
  collapsed b (s ++ t) → collapsed false t.
Proof.
  revert b. induction s as [|c r IH]; intros b; simpl; [apply collapsed_any |].
  destruct (isspace c).
  - intros (_ & _ & H). eapply IH, H.
  - apply IH.
Qed.

Lemma collapsed_strip (s : str) : collapsed false s → collapsed false (strip s).
Proof.
  intros H. destruct (strip_middle s) as (d1 & d2 & Hs & _).
  rewrite Hs in H. apply collapsed_app_r in H. eapply collapsed_app_l, H.
Qed.

Section Sanitizer.
Context `{RT : Runtime}.

Abbreviation all_safe := (Forall (fun c => is_safe c = true)).

Lemma replace_safe (a b : char) (s : str) :
  is_safe a = false → all_safe s → replace a b s = s.
Proof.
  intros Ha Hs. unfold replace. induction Hs as [|c r Hc _ IH]; simpl; [reflexivity |].
  rewrite IH. destruct (N.eqb_spec c a) as [-> |]; [congruence | reflexivity].
Qed.

Lemma mask_safe (s : str) :
  all_safe s → map (fun c => if is_safe c then c else SP) s = s.
Proof.
  intros Hs. induction Hs as [|c r Hc _ IH]; simpl; [reflexivity |].
  rewrite Hc, IH. reflexivity.
Qed.

Lemma mask_all_safe (s : str) :
  all_safe (map (fun c => if is_safe c then c else SP) s).
Proof.
  induction s as [|c r IH]; simpl; constructor; [| exact IH].
  destruct (is_safe c) eqn:Hc; [exact Hc | reflexivity].
Qed.

Lemma sub_space_runs_all_safe (b : bool) (s : str) :
  all_safe s → all_safe (sub_space_runs_from b s).
Proof.
  intros Hs. revert b. induction Hs as [|c r Hc _ IH]; intros b; simpl; [constructor |].
  destruct (isspace c); [destruct b |]; try constructor; auto.
Qed.

Lemma strip_all_safe (s : str) : all_safe s → all_safe (strip s).
Proof.
  intros Hs. destruct (strip_middle s) as (d1 & d2 & H & _).
  rewrite H in Hs. apply Forall_app in Hs as [_ Hs]. apply Forall_app in Hs as [Hs _].
  exact Hs.
Qed.

Lemma sanitize_str_all_safe (text : str) : all_safe (sanitize_str text).
Proof.
  unfold sanitize_str. apply strip_all_safe, sub_space_runs_all_safe, mask_all_safe.
Qed.

Lemma sanitize_str_collapsed (text : str) : collapsed false (sanitize_str text).
Proof. unfold sanitize_str. apply collapsed_strip, sub_space_runs_collapsed. Qed.

(** A text that is already safe, collapsed and stripped is left alone. *)
Lemma sanitize_str_fixed (s : str) :
  all_safe s → collapsed false s → strip s = s → sanitize_str s = s.
Proof.
  intros Hs Hc Hst. unfold sanitize_str.
  repeat (rewrite (replace_safe _ _ s) by (reflexivity || assumption)).
  rewrite mask_safe by assumption.
  unfold sub_space_runs. rewrite collapsed_fixed by assumption. exact Hst.
Qed.

Lemma sanitize_str_idempotent (text : str) :
  sanitize_str (sanitize_str text) = sanitize_str text.
Proof.
  apply sanitize_str_fixed.
  - apply sanitize_str_all_safe.
  - apply sanitize_str_collapsed.
  - unfold sanitize_str. apply strip_idempotent.
Qed.

(** C9.  The output of the field sanitizer holds only characters of the
    allow-list (word characters, white space, the fixed punctuation), and
    sanitizing that output again returns it unchanged. *)
Theorem sanitize_text_input_allow_list_idempotent (text : value) :
  Forall (fun c => is_safe c = true) (sanitize_text_input text)
  ∧ sanitize_text_input (VStr (sanitize_text_input text)) = sanitize_text_input text.
Proof.
  split.
  - unfold sanitize_text_input. destruct (negb (truthy text)); [constructor |].
    apply sanitize_str_all_safe.
  - unfold sanitize_text_input at 1. simpl.
    destruct (sanitize_text_input text) as [|c r] eqn:Hout; [reflexivity |].
    simpl. rewrite <- Hout. unfold sanitize_text_input.
    destruct (negb (truthy text)) eqn:Ht.
    + unfold sanitize_text_input in Hout. rewrite Ht in Hout. discriminate.
    + apply sanitize_str_idempotent.
Qed.

End Sanitizer.

(** ** SemanticChunker *)

Lemma non_whitespace_app (s t : str) :
  non_whitespace (s ++ t) = non_whitespace s ++ non_whitespace t.
Proof. apply List.filter_app. Qed.

Lemma non_whitespace_spaces (d : str) :
  Forall (fun c => isspace c = true) d → non_whitespace d = [].
Proof.
  induction 1 as [|c r Hc _ IH]; simpl; [reflexivity |]. rewrite Hc. exact IH.
Qed.

Lemma non_whitespace_strip (s : str) : non_whitespace (strip s) = non_whitespace s.
Proof.
  destruct (strip_middle s) as (d1 & d2 & H & H1 & H2).
  rewrite H at 2. rewrite !non_whitespace_app.
  rewrite (non_whitespace_spaces d1 H1), (non_whitespace_spaces d2 H2), app_nil_r.
  reflexivity.
Qed.

Lemma split_blank_acc_step (piece : str) (c c' : char) (r' : str) :
  split_blank_acc piece (c :: c' :: r')
  = if (c =? NL)%N && (c' =? NL)%N
    then rev piece :: split_blank_acc [] r'
    else split_blank_acc (c :: piece) (c' :: r').
Proof. reflexivity. Qed.

Lemma split_blank_acc_content (n : nat) (s piece : str) :
  length s ≤ n →
  non_whitespace (concat (split_blank_acc piece s)) = non_whitespace (rev piece ++ s).
Proof.
  revert s piece. induction n as [|n IH]; intros s piece Hn.
  - destruct s; [| simpl in Hn; lia]. simpl. rewrite !app_nil_r. reflexivity.
  - destruct s as [|c [|c' r']].
    + simpl. rewrite !app_nil_r. reflexivity.
    + simpl. rewrite app_nil_r. reflexivity.
    + rewrite split_blank_acc_step.
      destruct ((c =? NL)%N && (c' =? NL)%N) eqn:Hsep.
      * apply andb_true_iff in Hsep as [Hc Hc'].
        apply N.eqb_eq in Hc, Hc'. subst c c'.
        change (concat (rev piece :: split_blank_acc [] r'))
          with (rev piece ++ concat (split_blank_acc [] r')).
        rewrite !non_whitespace_app, IH by (simpl in *; lia).
        simpl. reflexivity.
      * rewrite IH by (simpl in *; lia). simpl.
        rewrite <- app_assoc. reflexivity.
Qed.

Lemma split_blank_content (s : str) :
  non_whitespace (concat (split_blank s)) = non_whitespace s.
Proof. unfold split_blank. erewrite split_blank_acc_content; reflexivity. Qed.

Section Chunker.
Context `{RT : Runtime}.

Lemma is_empty_true {A} (l : list A) : is_empty l = true → l = [].
Proof. destruct l; [reflexivity | discriminate]. Qed.

Lemma add_sentence_content (max_chunk_size : Z) (st : list str * str) (sentence : str) :
  state_content (add_sentence max_chunk_size st sentence)
  = state_content st ++ non_whitespace sentence.
Proof.
  destruct st as [chunks current]. unfold add_sentence, state_content.
  destruct (len current + len sentence >? max_chunk_size)%Z.
  - destruct (is_empty current) eqn:He; simpl.
    + apply is_empty_true in He. subst current.
      rewrite concat_app. simpl. rewrite !app_nil_r, non_whitespace_app. reflexivity.
    + rewrite concat_app. simpl. rewrite app_nil_r, !non_whitespace_app.
      rewrite non_whitespace_strip. reflexivity.
  - simpl. rewrite !non_whitespace_app. simpl. rewrite <- app_assoc. reflexivity.
Qed.

Lemma add_sentences_content (max_chunk_size : Z) (sentences : list str)
    (st : list str * str) :
  state_content (fold_left (add_sentence max_chunk_size) sentences st)
  = state_content st ++ non_whitespace (concat sentences).
Proof.
  revert st. induction sentences as [|s ss IH]; intros st; simpl.
  - rewrite app_nil_r. reflexivity.
  - rewrite IH, add_sentence_content, non_whitespace_app, app_assoc. reflexivity.
Qed.

Lemma add_paragraph_content (max_chunk_size : Z) (st : list str * str) (paragraph : str) :
  tokenizer_keeps_content →
  state_content (add_paragraph max_chunk_size st paragraph)
  = state_content st ++ non_whitespace paragraph.
Proof.
  intros Htok. unfold add_paragraph.
  rewrite <- (non_whitespace_strip paragraph).
  destruct (is_empty (strip paragraph)) eqn:Hp.
  - apply is_empty_true in Hp. rewrite Hp. simpl. rewrite app_nil_r. reflexivity.
  - destruct st as [chunks current].
    destruct (len current + len (strip paragraph) >? max_chunk_size)%Z.
    + destruct (is_empty current) eqn:He; simpl.
      * rewrite add_sentences_content, Htok. reflexivity.
      * unfold state_content. simpl. rewrite concat_app. simpl.
        rewrite app_nil_r, !non_whitespace_app, non_whitespace_strip. reflexivity.
    + unfold state_content. simpl. rewrite !non_whitespace_app. simpl.
      rewrite <- app_assoc. reflexivity.
Qed.

Lemma add_paragraphs_content (max_chunk_size : Z) (paragraphs : list str)
    (st : list str * str) :
  tokenizer_keeps_content →
  state_content (fold_left (add_paragraph max_chunk_size) paragraphs st)
  = state_content st ++ non_whitespace (concat paragraphs).
Proof.
  intros Htok. revert st. induction paragraphs as [|p ps IH]; intros st; simpl.
  - rewrite app_nil_r. reflexivity.
  - rewrite IH, add_paragraph_content, non_whitespace_app, app_assoc by assumption.
    reflexivity.
Qed.

(** C3.  For every text and every size limit, the chunks of
    [chunk_legal_document], concatenated in order, have the non-white-space
    characters of the text, each once and in the order of the text, provided
    the sentence tokenizer keeps the content of the paragraphs it is given. *)
Theorem chunk_legal_document_keeps_content (text : str) (max_chunk_size : Z) :
  tokenizer_keeps_content →
  non_whitespace (concat (chunk_legal_document text max_chunk_size))
  = non_whitespace text.
Proof.
  intros Htok. unfold chunk_legal_document.
  pose proof (add_paragraphs_content max_chunk_size (split_blank text) ([], []) Htok) as H.
  destruct (fold_left (add_paragraph max_chunk_size) (split_blank text) ([], []))
    as [chunks current].
  unfold state_content in H. simpl in H. rewrite split_blank_content in H.
  destruct (is_empty current) eqn:He; simpl.
  - apply is_empty_true in He. subst current. rewrite app_nil_r in H. exact H.
  - rewrite concat_app. simpl. rewrite app_nil_r.
    rewrite non_whitespace_app, non_whitespace_strip, <- non_whitespace_app. exact H.
Qed.

End Chunker.

(** The reference tokenizer keeps the content of what it splits. *)
Lemma split_sentences_acc_step (cur : str) (c c' : char) (r' : str) :
  split_sentences_acc cur (c :: c' :: r')
  = if is_terminator c && (c' =? SP)%N
    then rev (c :: cur) :: split_sentences_acc [] r'
    else split_sentences_acc (c :: cur) (c' :: r').
Proof. reflexivity. Qed.

Lemma split_sentences_acc_content (n : nat) (s cur : str) :
  length s ≤ n →
  non_whitespace (concat (split_sentences_acc cur s)) = non_whitespace (rev cur ++ s).
Proof.
  revert s cur. induction n as [|n IH]; intros s cur Hn.
  - destruct s; [| simpl in Hn; lia]. simpl.
    destruct cur; simpl; rewrite ?app_nil_r; reflexivity.
  - destruct s as [|c [|c' r']].
    + simpl. destruct cur; simpl; rewrite ?app_nil_r; reflexivity.
    + simpl. rewrite app_nil_r. reflexivity.
    + rewrite split_sentences_acc_step.
      destruct (is_terminator c && (c' =? SP)%N) eqn:Hend.
      * apply andb_true_iff in Hend as [_ Hc']. apply N.eqb_eq in Hc'. subst c'.
        change (concat (rev (c :: cur) :: split_sentences_acc [] r'))
          with (rev (c :: cur) ++ concat (split_sentences_acc [] r')).
        rewrite !non_whitespace_app, IH by (simpl in *; lia).
        simpl. rewrite !non_whitespace_app. simpl.
        rewrite <- app_assoc. destruct (isspace c); reflexivity.
      * rewrite IH by (simpl in *; lia). simpl.
        rewrite <- app_assoc. reflexivity.
Qed.

Lemma split_sentences_keeps_content (salt : Z) (tokenizer : option Tokenizer) :
  tokenizer_keeps_content (RT := reference_runtime salt tokenizer).
Proof.
  intros p. simpl. unfold split_sentences.
  erewrite split_sentences_acc_content; reflexivity.
Qed.

(** The statement of C3 on a two-paragraph text whose second paragraph is cut
    at its sentences. *)
Lemma chunk_legal_document_keeps_content_example :
  tokenizer_keeps_content (RT := reference_runtime 0 None)
  ∧ non_whitespace
      (concat (chunk_legal_document (RT := reference_runtime 0 None)
                 (lit "Abcdefghijklmnop. Qr." ++ [NL; NL; NL] ++ lit "x   ") 10))
    = non_whitespace (lit "Abcdefghijklmnop. Qr." ++ [NL; NL; NL] ++ lit "x   ").
Proof.
  split.
  - apply split_sentences_keeps_content.
  - apply (chunk_legal_document_keeps_content (RT := reference_runtime 0 None)).
    apply split_sentences_keeps_content.
Defined.

(** A stripped, non-empty paragraph behind the two line feeds that open the
    buffer is what [strip] gives back. *)
Lemma strip_after_blank (p : str) : p ≠ [] → strip p = p → strip ([NL; NL] ++ p) = p.
Proof.
  intros Hne Hp. unfold strip.
  rewrite rstrip_fixed.
  - simpl. apply lstrip_fixed.
    destruct p as [|c r]; [exact I |]. eapply strip_head. exact Hp.
  - intros r c Hr.
    destruct (exists_last Hne) as (r' & c' & Hlast).
    assert (c = c') as ->.
    { rewrite Hlast, app_assoc in Hr. apply app_inj_tail in Hr as [_ H]. congruence. }
    eapply strip_last. rewrite Hp. exact Hlast.
Qed.

Section ChunkerLimit.
Context `{RT : Runtime}.

(** C1.  A text of two paragraphs, the first within the limit and the second
    beyond it: [chunk_legal_document] returns the two paragraphs as its two
    chunks.  The second paragraph arrives while the buffer holds the first,
    so it becomes the buffer whole and is emitted whole, whatever sentences
    it is made of; the sentence tokenizer is never asked. *)
Theorem chunk_legal_document_emits_long_paragraph_whole (p1 p2 : str)
    (max_chunk_size : Z) :
  split_blank (p1 ++ [NL; NL] ++ p2) = [p1; p2] →
  p1 ≠ [] → strip p1 = p1 →
  p2 ≠ [] → strip p2 = p2 →
  (len p1 ≤ max_chunk_size)%Z →
  (max_chunk_size < len p2)%Z →
  chunk_legal_document (p1 ++ [NL; NL] ++ p2) max_chunk_size = [p1; p2].
Proof.
  intros Hsplit Hne1 Hp1 Hne2 Hp2 Hfit Hlong.
  assert (He1 : is_empty p1 = false) by (destruct p1; [contradiction | reflexivity]).
  assert (He2 : is_empty p2 = false) by (destruct p2; [contradiction | reflexivity]).
  unfold chunk_legal_document. rewrite Hsplit. cbn [fold_left].
  unfold add_paragraph at 2. rewrite Hp1, He1.
  replace (len (@nil N) + len p1 >? max_chunk_size)%Z with false
    by (symmetry; rewrite Z.gtb_ltb; apply Z.ltb_ge; unfold len in *; simpl; lia).
  unfold add_paragraph. rewrite Hp2, He2.
  replace (len ([] ++ [NL; NL] ++ p1) + len p2 >? max_chunk_size)%Z with true
    by (symmetry; rewrite Z.gtb_ltb; apply Z.ltb_lt; unfold len in *; lia).
  cbn [is_empty app negb]. rewrite He2. cbn [negb app].
  rewrite Hp2. f_equal. apply (strip_after_blank p1 Hne1 Hp1).
Qed.

End ChunkerLimit.

(** The statement of C1's theorem with a limit of 10, on a paragraph of 6
    characters followed by one of 20 characters and three sentences; on its
    own that paragraph is cut into its three sentences. *)
Lemma chunk_legal_document_emits_long_paragraph_whole_example :
  chunk_legal_document (RT := reference_runtime 0 None)
    (lit "Ab cd." ++ [NL; NL] ++ lit "Ef gh. Ij kl. Mn op.") 10
  = [lit "Ab cd."; lit "Ef gh. Ij kl. Mn op."]
  ∧ len (lit "Ef gh. Ij kl. Mn op.") = 20%Z
  ∧ chunk_legal_document (RT := reference_runtime 0 None) (lit "Ef gh. Ij kl. Mn op.") 10
    = [lit "Ef gh."; lit "Ij kl."; lit "Mn op."].
Proof.
  split; [| split; vm_compute; reflexivity].
  apply (chunk_legal_document_emits_long_paragraph_whole (RT := reference_runtime 0 None));
    try (vm_compute; reflexivity); try discriminate.
Defined.

(** A second way past the limit: the test before appending a paragraph leaves
    out the two line feeds that join it to the buffer.  With a limit of 3 the
    last chunk is two paragraphs and 5 characters long. *)
Lemma chunk_legal_document_separator_overshoot `{RT : Runtime} :
  chunk_legal_document (lit "ab" ++ [NL; NL] ++ lit "cd" ++ [NL; NL] ++ lit "e") 3
  = [lit "ab"; lit "cd" ++ [NL; NL] ++ lit "e"].
Proof. vm_compute. reflexivity. Qed.

(** The same in the sentence branch, on a text of one paragraph: the space
    that joins two sentences is not counted, and with a limit of 9 the last
    chunk is two sentences and 10 characters long. *)
Lemma chunk_legal_document_sentence_overshoot :
  chunk_legal_document (RT := reference_runtime 0 None) (lit "Abcd. Efgh. Ijk.") 9
  = [lit "Abcd."; lit "Efgh. Ijk."]
  ∧ len (lit "Efgh. Ijk.") = 10%Z
  ∧ sent_tokenize (Runtime := reference_runtime 0 None) (lit "Efgh. Ijk.")
    = [lit "Efgh."; lit "Ijk."].
Proof. repeat split; vm_compute; reflexivity. Qed.

(** ** LegalClassifier *)

Section Classifier.
Context `{RT : Runtime}.

Lemma lower_nil : lower [] = [].
Proof. reflexivity. Qed.

(** C6, as amended.  A text whose lower-case form contains [supreme court] or
    [scotus] is classified at the court level [supreme], with authority
    weight 1.0. *)
Theorem extract_legal_metadata_supreme_court (text case_name : str) :
  any_in ["supreme court"; "scotus"]%string (lower text) = true →
  md_court_level (extract_legal_metadata text case_name) = lit "supreme"
  ∧ md_authority_weight (extract_legal_metadata text case_name) = 1.0%float.
Proof.
  intros H. unfold extract_legal_metadata.
  destruct text as [|c r].
  - rewrite lower_nil in H. discriminate H.
  - cbn [is_empty]. cbv zeta. rewrite H. cbn [md_court_level md_authority_weight].
    split; reflexivity.
Qed.

(** The name-based rule of the court rows does fire on [supreme] alone. *)
Lemma determine_court_level_supreme (court_name : str) :
  contains (lit "supreme") (lower court_name) = true →
  determine_court_level court_name = lit "supreme"
  ∧ calculate_court_authority_weight court_name = 1.0%float.
Proof.
  intros H. unfold calculate_court_authority_weight, determine_court_level.
  rewrite H. split; reflexivity.
Qed.

End Classifier.

(** The amended statement on a sentence of an opinion. *)
Lemma extract_legal_metadata_supreme_court_example :
  any_in ["supreme court"; "scotus"]%string
    (lower (RT := reference_runtime 0 None) (lit "The Supreme Court held otherwise.")) = true
  ∧ md_court_level (extract_legal_metadata (RT := reference_runtime 0 None)
                      (lit "The Supreme Court held otherwise.") []) = lit "supreme"
  ∧ md_authority_weight (extract_legal_metadata (RT := reference_runtime 0 None)
                           (lit "The Supreme Court held otherwise.") []) = 1.0%float.
Proof.
  split; [reflexivity |].
  apply (extract_legal_metadata_supreme_court (RT := reference_runtime 0 None)).
  reflexivity.
Defined.

(** C6 as stated fails: this text contains [supreme], and is classified
    [unknown] with weight 0.1, since it holds neither [supreme court] nor
    [scotus] (nor a keyword of a later rule). *)
Lemma extract_legal_metadata_supreme_alone :
  contains (lit "supreme") (lit "massachusetts supreme judicial court") = true
  ∧ md_court_level (extract_legal_metadata (RT := reference_runtime 0 None)
                      (lit "massachusetts supreme judicial court") []) = lit "unknown"
  ∧ md_authority_weight (extract_legal_metadata (RT := reference_runtime 0 None)
                           (lit "massachusetts supreme judicial court") []) = 0.1%float.
Proof. repeat split; vm_compute; reflexivity. Qed.

(** ** ContextBudgeter *)

Lemma starts_with_app (p s : str) : starts_with p (p ++ s) = true.
Proof.
  induction p as [|c p IH]; simpl; [reflexivity |]. rewrite N.eqb_refl. exact IH.
Qed.

Lemma contains_at_start (needle hay : str) :
  starts_with needle hay = true → contains needle hay = true.
Proof. destruct hay; simpl; intros ->; reflexivity. Qed.

Lemma contains_middle (needle a b : str) : contains needle (a ++ needle ++ b) = true.
Proof.
  induction a as [|c a IH].
  - rewrite app_nil_l. apply contains_at_start, starts_with_app.
  - simpl. rewrite IH. apply orb_true_r.
Qed.

Section Budgeter.
Context `{RT : Runtime}.

(** C8, as amended.  Without a tokenizer the text is returned unchanged; with
    one, a text of at most 32,000 tokens is returned unchanged; a longer text
    becomes the decoding of its first 10,666 and last 10,666 tokens (a third of
    the budget each), with the note
    [[... CONTENT TRUNCATED FOR DEEPSEEK R1 OPTIMIZATION ...]] between two
    pairs of line feeds inserted at the offset where the decoding of the first
    10,666 tokens ends; when decoding distributes over concatenation, that is
    the seam between the two kept parts. *)
Theorem optimize_for_deepseek_r1_budget (text : str) :
  (deepseek_tokenizer = None → optimize_for_deepseek_r1 text = text)
  ∧ (∀ tk, deepseek_tokenizer = Some tk → (len (encode tk text) ≤ 32000)%Z →
       optimize_for_deepseek_r1 text = text)
  ∧ (∀ tk, deepseek_tokenizer = Some tk → (32000 < len (encode tk text))%Z →
       let start_tokens := firstn 10666 (encode tk text) in
       let end_tokens := last_n 10666 (encode tk text) in
       let kept := decode tk (start_tokens ++ end_tokens) in
       let cut := length (decode tk start_tokens) in
       optimize_for_deepseek_r1 text
       = firstn cut kept ++ [NL; NL] ++ TRUNCATION_MARKER ++ [NL; NL] ++ skipn cut kept
       ∧ contains TRUNCATION_MARKER (optimize_for_deepseek_r1 text) = true
       ∧ ((∀ a b, decode tk (a ++ b) = decode tk a ++ decode tk b) →
          optimize_for_deepseek_r1 text
          = decode tk start_tokens ++ [NL; NL] ++ TRUNCATION_MARKER ++ [NL; NL]
            ++ decode tk end_tokens)).
Proof.
  unfold optimize_for_deepseek_r1, max_tokens.
  split; [| split].
  - intros ->. reflexivity.
  - intros tk -> Hle. apply Z.leb_le in Hle. rewrite Hle. reflexivity.
  - intros tk -> Hgt. apply Z.leb_gt in Hgt. rewrite Hgt.
    change (Z.to_nat (32000 / 3)) with 10666.
    cbv zeta. split; [| split].
    + unfold TRUNCATION_NOTE, TRUNCATION_MARKER. rewrite <- !app_assoc. reflexivity.
    + unfold TRUNCATION_NOTE. fold TRUNCATION_MARKER.
      match goal with
      | |- contains _ (?a ++ (?p ++ ?m ++ ?q) ++ ?b) = true =>
          replace (a ++ (p ++ m ++ q) ++ b) with ((a ++ p) ++ m ++ (q ++ b))
            by (rewrite <- !app_assoc; reflexivity)
      end.
      apply contains_middle.
    + intros Hhom. rewrite Hhom.
      rewrite firstn_app, Nat.sub_diag, firstn_all. simpl (firstn 0 _). rewrite app_nil_r.
      rewrite skipn_app, Nat.sub_diag, skipn_all, skipn_O, app_nil_l.
      unfold TRUNCATION_NOTE, TRUNCATION_MARKER. rewrite <- !app_assoc. reflexivity.
Qed.

End Budgeter.

(** The amended statement on a text of 32,001 tokens. *)
Lemma optimize_for_deepseek_r1_budget_example :
  (32000 < len (encode char_tokenizer (repeat 97%N 32001)))%Z
  ∧ optimize_for_deepseek_r1 (RT := reference_runtime 0 (Some char_tokenizer))
      (repeat 97%N 32001)
    = repeat 97%N 10666 ++ [NL; NL] ++ TRUNCATION_MARKER ++ [NL; NL] ++ repeat 97%N 10666.
Proof.
  assert (Hlong : (32000 < len (encode char_tokenizer (repeat 97%N 32001)))%Z)
    by (vm_compute; reflexivity).
  split; [exact Hlong |].
  destruct (optimize_for_deepseek_r1_budget
              (RT := reference_runtime 0 (Some char_tokenizer)) (repeat 97%N 32001))
    as (_ & _ & H).
  destruct (H char_tokenizer eq_refl Hlong) as (_ & _ & Hseam).
  rewrite Hseam by (intros a b; apply map_app).
  apply (bool_decide_unpack _). vm_compute. exact I.
Defined.

(** C8 as stated fails on the marker: the budgeted form of this text of 32,001
    tokens does not contain the literal [...CONTENT TRUNCATED...]. *)
Lemma optimize_for_deepseek_r1_literal_marker_absent :
  (32000 < len (encode char_tokenizer (repeat 97%N 32001)))%Z
  ∧ contains (lit "...CONTENT TRUNCATED...")
      (optimize_for_deepseek_r1 (RT := reference_runtime 0 (Some char_tokenizer))
         (repeat 97%N 32001)) = false.
Proof. split; vm_compute; reflexivity. Qed.

(** ** IndexWriter: the relational cache *)



Lemma filter_out_then_in (id : str) (rows : list document_row) :
  filter (fun r => row_id r = id) (filter (fun r => row_id r ≠ id) rows) = [].
Proof.
  induction rows as [|r rows IH]; [reflexivity |].
  rewrite (filter_cons (fun r => row_id r ≠ id)).
  destruct (decide (row_id r ≠ id)) as [Hne | Heq]; [| exact IH].
  rewrite filter_cons. destruct (decide (row_id r = id)); [contradiction | exact IH].
Qed.

(** After [INSERT OR REPLACE] the row of the written id is the new row
    alone... *)
Lemma insert_or_replace_document_lookup (row : document_row) (rows : list document_row) :
  filter (fun r => row_id r = row_id row) (insert_or_replace_document row rows) = [row].
Proof.
  unfold insert_or_replace_document.
  rewrite filter_app, filter_out_then_in, filter_cons.
  destruct (decide (row_id row = row_id row)); [reflexivity | contradiction].
Qed.

(** ... and the rows of the other ids are as they were, in their order. *)
Lemma insert_or_replace_document_frame (row : document_row) (rows : list document_row) :
  filter (fun r => row_id r ≠ row_id row) (insert_or_replace_document row rows)
  = filter (fun r => row_id r ≠ row_id row) rows.
Proof.
  unfold insert_or_replace_document.
  rewrite filter_app, list_filter_filter, filter_cons.
  destruct (decide (row_id row ≠ row_id row)); [contradiction |].
  rewrite filter_nil, app_nil_r. apply list_filter_iff. intros r. tauto.
Qed.


Lemma insert_or_replace_document_NoDup (row : document_row) (rows : list document_row) :
  NoDup (map row_id rows) → NoDup (map row_id (insert_or_replace_document row rows)).
Proof.
  intros Hnd. unfold insert_or_replace_document. rewrite map_app. simpl.
  apply NoDup_app. split; [| split].
  - induction rows as [|r rows IH]; simpl; [constructor |].
    inversion Hnd as [|? ? Hnotin Hnd']; subst.
    rewrite filter_cons. destruct (decide (row_id r ≠ row_id row)); [| auto].
    simpl. constructor; [| auto].
    intros Hin. apply Hnotin.
    rewrite list_elem_of_In in Hin |- *. apply in_map_iff in Hin as (r' & Hid & Hr').
    apply in_map_iff. exists r'. split; [exact Hid |].
    rewrite <- list_elem_of_In in Hr' |- *. apply list_elem_of_filter in Hr'. tauto.
  - intros x Hx Hx'. apply list_elem_of_singleton in Hx'. subst x.
    rewrite list_elem_of_In in Hx. apply in_map_iff in Hx as (r' & Hid & Hr').
    rewrite <- list_elem_of_In in Hr'. apply list_elem_of_filter in Hr' as [Hne _].
    contradiction.
  - apply NoDup_singleton.
Qed.

Lemma store_document_NoDup (db : sqlite_db) (doc : LegalDocument) :
  NoDup (map row_id (documents db)) →
  NoDup (map row_id (documents (store_document db doc))).
Proof.
  intros Hnd. unfold store_document.
  destruct (row_binds (document_row_of doc)); [| exact Hnd].
  apply insert_or_replace_document_NoDup, Hnd.
Qed.

(** The table [documents] never holds two rows of one id. *)
Lemma store_in_sqlite_NoDup (db : sqlite_db) (legal_docs : list LegalDocument) :
  NoDup (map row_id (documents db)) →
  NoDup (map row_id (documents (store_in_sqlite db legal_docs))).
Proof.
  revert db. induction legal_docs as [|doc docs IH]; intros db Hnd; [exact Hnd |].
  apply IH, store_document_NoDup, Hnd.
Qed.





(** A document with three chunk embeddings, stored. *)
Lemma store_in_sqlite_chunk_text_example :
  map er_chunk_text
    (embeddings
       (store_in_sqlite empty_db
          [build_legal_document (RT := reference_runtime 0 None) ∅ (lit "Roe v. Wade")
             (lit "410 U.S. 113") (lit "Supreme Court") (lit "text")
             (repeat 97%N 600 ++ lit ". " ++ repeat 98%N 600 ++ lit ". "
              ++ repeat 99%N 600 ++ lit ".")]))
  = [lit "Chunk 0"; lit "Chunk 1"; lit "Chunk 2"].
Proof. vm_compute. reflexivity. Qed.


(** A later document of the same id, when its [INSERT] does not raise,
    replaces the row of the earlier one and leaves every other row as it
    was... *)
Lemma store_in_sqlite_later_replaces (db : sqlite_db) (doc1 doc2 : LegalDocument) :
  doc_id doc1 = doc_id doc2 →
  row_binds (document_row_of doc2) = true →
  let db' := store_in_sqlite (store_in_sqlite db [doc1]) [doc2] in
  filter (fun r => row_id r = doc_id doc2) (documents db') = [document_row_of doc2]
  ∧ filter (fun r => row_id r ≠ doc_id doc2) (documents db')
    = filter (fun r => row_id r ≠ doc_id doc2) (documents db).
Proof.
  intros Hid Hb2. cbv zeta. unfold store_in_sqlite. cbn [fold_left].
  assert (Hlast : documents (store_document (store_document db doc1) doc2)
                  = insert_or_replace_document (document_row_of doc2)
                      (documents (store_document db doc1)))
    by (unfold store_document at 1; rewrite Hb2; reflexivity).
  rewrite Hlast. split.
  - apply (insert_or_replace_document_lookup (document_row_of doc2)).
  - change (doc_id doc2) with (row_id (document_row_of doc2)).
    rewrite insert_or_replace_document_frame.
    unfold store_document. destruct (row_binds (document_row_of doc1)); [| reflexivity].
    cbn [documents].
    assert (Hid' : row_id (document_row_of doc2) = row_id (document_row_of doc1))
      by (symmetry; exact Hid).
    rewrite Hid'. apply insert_or_replace_document_frame.
Qed.

(** ... and when it raises, the handler of the loop logs the error and the
    cache stays as the earlier document left it. *)
Lemma store_in_sqlite_keeps_row_on_error (db : sqlite_db) (doc : LegalDocument) :
  row_binds (document_row_of doc) = false → store_in_sqlite db [doc] = db.
Proof.
  intros Hb. unfold store_in_sqlite. cbn [fold_left]. unfold store_document.
  rewrite Hb. reflexivity.
Qed.

(** ** Per-document processing *)

Section Processing.
Context `{RT : Runtime}.

Lemma re_sub_char_set_unterminated (repl : char) (text : str) :
  re_sub_char_set (lit "[" ++ lit "]") repl text = None.
Proof. reflexivity. Qed.

Lemma re_sub_char_set_quotes (text : str) :
  re_sub_char_set [chr "["; DQUOTE; DQUOTE; chr "]"] DQUOTE text
  = Some (map (fun c => if has_char c [DQUOTE; DQUOTE] then DQUOTE else c) text).
Proof. reflexivity. Qed.

(** [clean_text] raises on every text that is not empty: the pattern of its
    last substitution does not compile. *)
Lemma clean_text_raises (text : str) : text ≠ [] → clean_text text = None.
Proof.
  intros Hne. unfold clean_text. destruct text as [|c r]; [contradiction |].
  cbn [is_empty]. cbv zeta.
  rewrite re_sub_char_set_quotes. cbn [mbind option_bind].
  rewrite re_sub_char_set_unterminated. reflexivity.
Qed.

(** So [process_legal_document] goes, for every record that holds a text,
    through the debugging branch of its handler, and returns [None] for
    every other record. *)
Lemma process_legal_document_outcome (doc_data : record) :
  process_legal_document doc_data
  = match dict_get doc_data "plain_text" (dict_get doc_data "html" (VStr [])) with
    | VStr (_ :: _) => regex_error_handler doc_data
    | _ => Returns None
    end.
Proof.
  unfold process_legal_document.
  destruct (dict_get doc_data "plain_text" _) as [[|c r] | f | l].
  - reflexivity.
  - cbn [truthy is_empty negb]. rewrite clean_text_raises by discriminate. reflexivity.
  - destruct (negb (truthy (VFloat f))); reflexivity.
  - destruct (negb (truthy (VList l))); reflexivity.
Qed.

(** No record becomes a document. *)
Lemma process_legal_document_no_document (doc_data : record) (doc : LegalDocument) :
  process_legal_document doc_data ≠ Returns (Some doc).
Proof.
  rewrite process_legal_document_outcome.
  destruct (dict_get doc_data "plain_text" _) as [[|c r] | f | l]; try discriminate.
  unfold regex_error_handler. destruct (_ && _); discriminate.
Qed.

Lemma process_legal_document_fails (doc_data : record) :
  process_legal_document doc_data = Returns None ∨ process_legal_document doc_data = Raises.
Proof.
  pose proof (process_legal_document_no_document doc_data) as H.
  destruct (process_legal_document doc_data) as [[doc|]|]; [| left | right]; try reflexivity.
  exfalso. apply (H doc). reflexivity.
Qed.

End Processing.

(** ** Conversion of citation rows *)

Section CitationRows.
Context `{RT : Runtime}.

(** The weight that the classifier returns is an entry of [court_hierarchy]
    (or the default 0.1), and 0.5 is none of them. *)
Lemma extract_legal_metadata_weight_not_half (text case_name : str) :
  md_authority_weight (extract_legal_metadata text case_name) ≠ 0.5%float.
Proof.
  unfold extract_legal_metadata.
  destruct (is_empty text); cbv zeta; cbn [md_authority_weight default_metadata].
  - float_differs.
  - repeat match goal with
           | |- context [if ?b then _ else _] => destruct b
           end; float_differs.
Qed.

Lemma build_legal_document_weight (doc_data : record)
    (case_name citation court full_text plain_text : str) :
  doc_authority_weight
    (build_legal_document doc_data case_name citation court full_text plain_text)
  = md_authority_weight (extract_legal_metadata plain_text case_name).
Proof. reflexivity. Qed.

(** C7.  For every citation row: the converted record holds the weight 0.5
    under its key [authority_weight]; [process_legal_document] does not read
    that key and returns no document for the record; and the statements that
    build a [LegalDocument] give it the weight that [extract_legal_metadata]
    finds for the text, which is never 0.5. *)
Theorem citation_row_weight_not_carried (row : record) :
  let doc_data := convert_citation_row_to_document row in
  doc_data !! "authority_weight"%string = Some (VFloat 0.5%float)
  ∧ process_legal_document doc_data = Returns None
  ∧ ∀ case_name citation court full_text plain_text : str,
      doc_authority_weight
        (build_legal_document doc_data case_name citation court full_text plain_text)
      = md_authority_weight (extract_legal_metadata plain_text case_name)
      ∧ doc_authority_weight
          (build_legal_document doc_data case_name citation court full_text plain_text)
        ≠ 0.5%float.
Proof.
  intros doc_data. split; [| split].
  - reflexivity.
  - rewrite process_legal_document_outcome. reflexivity.
  - intros. split; [reflexivity |].
    rewrite build_legal_document_weight. apply extract_legal_metadata_weight_not_half.
Qed.

End CitationRows.

Lemma citation_row_weight_example :
  let RT := reference_runtime 0 None in
  let doc_data := convert_citation_row_to_document citation_row_7 in
  let text := lit "This citation links opinion 1 to 2." in
  let doc := build_legal_document doc_data (record_case_name doc_data)
               (record_citation doc_data) (record_court doc_data) text text in
  doc_data !! "plain_text"%string = Some (VStr text)
  ∧ process_legal_document doc_data = Returns None
  ∧ doc_authority_weight doc = 0.1%float
  ∧ doc_court_level doc = lit "unknown"
  ∧ doc_case_name doc = lit "Citation Network: 1 2".
Proof. repeat split; vm_compute; reflexivity. Qed.

(** ** IndexWriter: the similarity index *)

(** Within one process the point ids are functions of the document id and of
    the chunk index. *)
Lemma point_ids_within_process `{RT : Runtime} (doc1 doc2 : LegalDocument) :
  doc_id doc1 = doc_id doc2 →
  document_point_id doc1 = document_point_id doc2
  ∧ ∀ i, chunk_point_id doc1 i = chunk_point_id doc2 i.
Proof.
  intros H. unfold document_point_id, chunk_point_id. rewrite H. split; reflexivity.
Qed.

(** Between two processes they agree exactly when the two salted hashes of
    the id agree modulo [2^63]. *)
Lemma document_point_id_across_processes (RT1 RT2 : Runtime) (doc : LegalDocument) :
  document_point_id (RT := RT1) doc = document_point_id (RT := RT2) doc
  ↔ (py_hash (Runtime := RT1) (doc_id doc) `mod` 2 ^ 63
     = py_hash (Runtime := RT2) (doc_id doc) `mod` 2 ^ 63)%Z.
Proof. reflexivity. Qed.

(** C5.  One document (one chunk) indexed by two processes whose hash salts
    differ.  Each process derives its own two point ids from the same document
    id, so indexing it again from the second process adds two points to the
    collection; indexing it again from the first process replaces them. *)
Theorem store_in_qdrant_point_ids_follow_salt :
  let first_run := store_in_qdrant (RT := reference_runtime 1 None) [] [roe_document] in
  let again_same_process :=
    store_in_qdrant (RT := reference_runtime 1 None) first_run [roe_document] in
  let again_other_process :=
    store_in_qdrant (RT := reference_runtime 2 None) first_run [roe_document] in
  map point_id first_run = [2336776681863619129; 8557831881496020696]%Z
  ∧ map point_id again_same_process = [2336776681863619129; 8557831881496020696]%Z
  ∧ map point_id again_other_process
    = [2336776681863619129; 8557831881496020696;
       6462409736180854586; 3005926907895939801]%Z.
Proof. repeat split; vm_compute; reflexivity. Qed.

(** ** The run: batches and checkpoints *)

Lemma length_last_n {A} (n : nat) (l : list A) : length (last_n n l) = Nat.min n (length l).
Proof. unfold last_n. rewrite length_skipn. lia. Qed.

Lemma length_slice {A} (i n : nat) (l : list A) :
  length (slice i n l) = Nat.min n (length l - i).
Proof. unfold slice. rewrite length_firstn, length_skipn. reflexivity. Qed.

Lemma batches_Forall {A} (P : A → Prop) (n : nat) (l : list A) :
  Forall P l → Forall (Forall P) (batches n l).
Proof.
  intros H. unfold batches. apply Forall_map, Forall_forall. intros i _.
  apply Forall_take, Forall_drop, H.
Qed.

Section CheckpointFacts.
Context {Raw Doc Store : Type}.
Variable process_document : Raw → outcome (option Doc).
Variable flush : Store → list Doc → Store.
Variable completion : list (outcome (option Doc)) → list (outcome (option Doc)).
Hypothesis completion_permutes : ∀ l, Permutation (completion l) l.

Abbreviation state := (run_state (Doc := Doc) (Store := Store)).
Abbreviation sizes := (sizes (Doc := Doc) (Store := Store)).
Abbreviation succeeds := (succeeds process_document).

(** Where every future returns a document, none raises and each appends. *)
Lemma gather_documents (results : list (outcome (option Doc))) :
  Forall (fun r => ∃ doc, r = Returns (Some doc)) results →
  snd (gather results) = false ∧ length (fst (gather results)) = length results.
Proof.
  induction 1 as [|r results [doc ->] _ [IHr IHl]]; [split; reflexivity |].
  cbn [gather]. destruct (gather results) as [docs raised].
  cbn [fst snd] in *. split; [exact IHr | simpl; f_equal; exact IHl].
Qed.

Lemma gathered_length (batch : list Raw) :
  Forall succeeds batch →
  snd (gather (completion (map process_document batch))) = false
  ∧ length (fst (gather (completion (map process_document batch)))) = length batch.
Proof.
  intros H.
  assert (Hres : Forall (fun r => ∃ doc, r = Returns (Some doc))
                        (completion (map process_document batch))).
  { rewrite (completion_permutes _). apply Forall_map.
    eapply Forall_impl; [exact H |]. intros d Hd. exact Hd. }
  destruct (gather_documents _ Hres) as [Hr Hl]. split; [exact Hr |].
  rewrite Hl, (Permutation_length (completion_permutes _)). apply length_map.
Qed.

Lemma process_batch_sizes (st : state) (batch : list Raw) :
  Forall succeeds batch →
  snd (process_batch process_document flush completion st batch) = false
  ∧ sizes (fst (process_batch process_document flush completion st batch))
    = step_sizes (sizes st) (length batch).
Proof.
  intros H. destruct (gathered_length batch H) as [Hr Hl].
  unfold process_batch, step_sizes, sizes.
  destruct (gather (completion (map process_document batch))) as [docs raised].
  cbn [fst snd] in Hr, Hl. subst raised. cbv zeta. cbn [fst snd].
  set (all_docs := all_legal_docs st ++ docs).
  assert (Hlen : length all_docs = length (all_legal_docs st) + length batch)
    by (subst all_docs; rewrite length_app, Hl; reflexivity).
  rewrite <- Hlen.
  destruct (1000 <=? length all_docs); cbn [fst snd all_legal_docs flush_log];
    (split; [reflexivity |]); [| reflexivity].
  rewrite map_app. cbn [map]. rewrite length_last_n. reflexivity.
Qed.

Lemma process_batches_sizes (bs : list (list Raw)) (st : state) :
  Forall (Forall succeeds) bs →
  sizes (process_batches process_document flush completion st bs)
  = fold_left step_sizes (map length bs) (sizes st).
Proof.
  intros H. revert st. induction H as [|b bs Hb _ IH]; intros st; [reflexivity |].
  cbn [process_batches map fold_left].
  destruct (process_batch_sizes st b Hb) as [Hr Hs].
  destruct (process_batch process_document flush completion st b) as [st' raised].
  cbn [fst snd] in Hr, Hs. subst raised. rewrite IH, Hs. reflexivity.
Qed.

Lemma store_remaining_sizes (st : state) :
  snd (sizes (store_remaining flush st))
  = let n := length (all_legal_docs st) in
    if (0 <? n) && (0 <? n mod 1000) then snd (sizes st) ++ [n mod 1000] else snd (sizes st).
Proof.
  unfold store_remaining, sizes. cbv zeta.
  destruct (all_legal_docs st) as [|d ds] eqn:Hall; [reflexivity |].
  cbn [is_empty negb andb snd].
  replace (0 <? length (d :: ds)) with true by (symmetry; apply Nat.ltb_lt; simpl; lia).
  cbn [andb].
  destruct (0 <? length (d :: ds) mod 1000) eqn:E; [| reflexivity].
  cbn [flush_log]. rewrite map_app. cbn [map]. rewrite length_last_n.
  f_equal. f_equal.
  pose proof (Nat.Div0.mod_le (length (d :: ds)) 1000). lia.
Qed.

(** What the checkpoint test would do if records did become documents.  One
    file of 2,500 records, every one of them processed with success, in
    whatever order the futures of a batch complete: the stores are called 17
    times, 16 times on 1,000 documents (after each of the batches 10 to 25)
    and once on the last 500. *)
Lemma successful_run_of_2500_flushes_17_times (init : Store) (docs : list Raw) :
  length docs = 2500 →
  Forall succeeds docs →
  map length (flush_log (run_files process_document flush completion init [docs]))
  = repeat 1000 16 ++ [500].
Proof.
  intros Hlen Hok. unfold run_files. cbn [fold_left]. unfold process_file_records.
  match goal with
  | |- map length (flush_log (store_remaining _ ?st)) = _ =>
      change (map length (flush_log (store_remaining flush st)))
        with (snd (sizes (store_remaining flush st)));
      assert (Hsizes : sizes st = (2500, repeat 1000 16))
  end.
  - rewrite process_batches_sizes by (apply batches_Forall, Hok).
    unfold batches. rewrite map_map, Hlen.
    erewrite map_ext by (intros i; rewrite length_slice, Hlen; reflexivity).
    vm_compute. reflexivity.
  - rewrite store_remaining_sizes. unfold sizes in Hsizes.
    injection Hsizes as Hall Hlog. rewrite Hall. unfold sizes. cbn [snd]. rewrite Hlog.
    vm_compute. reflexivity.
Qed.

End CheckpointFacts.

(** That statement on 2,500 numbered records and a processor that returns a
    document for each, the futures of each batch completing in reverse
    order. *)
Lemma successful_run_of_2500_example :
  map length
    (flush_log (run_files (Store := unit) (fun d : nat => Returns (Some d)) (fun s _ => s)
                  (@rev (outcome (option nat))) tt [seq 0 2500]))
  = repeat 1000 16 ++ [500].
Proof.
  apply (successful_run_of_2500_flushes_17_times (Store := unit)
           (fun d : nat => Returns (Some d)) (fun s _ => s) (@rev (outcome (option nat)))).
  - intros l. symmetry. apply Permutation_rev.
  - apply length_seq.
  - apply Forall_forall. intros d _. exists d. reflexivity.
Qed.

(** The first two checkpoints of such a run share 900 documents: the second
    holds the documents 100 to 1,099. *)
Lemma first_two_flushes_overlap :
  firstn 2
    (flush_log (run_files (Store := unit) (fun d : nat => Returns (Some d)) (fun s _ => s)
                  (fun l => l) tt [seq 0 2500]))
  = [seq 0 1000; seq 100 1000].
Proof. apply (bool_decide_unpack _). vm_compute. exact I. Qed.

(** Two files of 950 and 100 records: the one checkpoint holds the documents
    50 to 1,049 and the final call the documents 1,000 to 1,049, so the
    documents 0 to 49 would reach no store. *)
Lemma checkpoint_misses_documents :
  flush_log (run_files (Store := unit) (fun d : nat => Returns (Some d)) (fun s _ => s)
               (fun l => l) tt [seq 0 950; seq 950 100])
  = [seq 50 1000; seq 1000 50].
Proof. apply (bool_decide_unpack _). vm_compute. exact I. Qed.

(** ** The run as it is written

    With [process_legal_document] as it is written no record becomes a
    document, so a run gathers nothing and calls no store. *)
Section RunAsWritten.
Context `{RT : Runtime}.
Variable completion :
  list (outcome (option LegalDocument)) → list (outcome (option LegalDocument)).
Hypothesis completion_permutes : ∀ l, Permutation (completion l) l.

Lemma gather_failures (results : list (outcome (option LegalDocument))) :
  Forall (fun r => r = Returns None ∨ r = Raises) results → fst (gather results) = [].
Proof.
  induction 1 as [|r results [-> | ->] _ IH]; [reflexivity | | reflexivity].
  cbn [gather]. destruct (gather results) as [docs raised]. exact IH.
Qed.

Lemma no_document_gathered (batch : list (gmap string value)) :
  fst (gather (completion (map process_legal_document batch))) = [].
Proof.
  apply gather_failures. rewrite (completion_permutes _).
  apply Forall_map, Forall_forall. intros d _. apply process_legal_document_fails.
Qed.

Lemma process_batch_untouched init st batch :
  untouched init st →
  untouched init (fst (process_batch process_legal_document flush_stores completion st batch)).
Proof.
  intros (Hall & Hlog & Hst & Hn). unfold process_batch.
  pose proof (no_document_gathered batch) as Hnone.
  destruct (gather (completion (map process_legal_document batch))) as [docs raised].
  cbn [fst] in Hnone. subst docs. cbv zeta. rewrite Hall.
  destruct raised; cbn [app length Nat.leb fst]; repeat split; assumption.
Qed.

Lemma process_batches_untouched init bs st :
  untouched init st →
  untouched init (process_batches process_legal_document flush_stores completion st bs).
Proof.
  revert st. induction bs as [|b bs IH]; intros st Hst; [exact Hst |].
  cbn [process_batches].
  pose proof (process_batch_untouched init st b Hst) as Hb.
  destruct (process_batch process_legal_document flush_stores completion st b)
    as [st' raised].
  cbn [fst] in Hb. destruct raised; [exact Hb | apply IH, Hb].
Qed.

Lemma run_files_untouched init (files : list (list (gmap string value))) :
  untouched init (run_files process_legal_document flush_stores completion init files).
Proof.
  unfold run_files.
  assert (H : ∀ st, untouched init st →
                    untouched init
                      (fold_left (process_file_records process_legal_document flush_stores
                                    completion) files st)).
  { induction files as [|f fs IH]; intros st Hst; [exact Hst |].
    cbn [fold_left]. apply IH. apply process_batches_untouched, Hst. }
  match goal with
  | |- context [fold_left ?f files ?st0] => specialize (H st0)
  end.
  destruct H as (Hall & Hlog & Hst & Hn); [repeat split |].
  unfold store_remaining. cbv zeta. rewrite Hall. cbn [is_empty negb andb].
  repeat split; assumption.
Qed.


(** C4.  Two records, with whatever case names and citations, read from one
    file and processed as the code is written: [process_legal_document]
    returns a document for neither, so neither gets an id, and the run stores
    nothing, so the table [documents] holds the rows it held before, none of
    them replaced. *)
Theorem same_pair_no_id_no_row (init : sqlite_db * list point) (path : str)
    (d1 d2 : record) :
  let run := process_courtlistener_files completion init
               [ {| file_path := path; file_entries := [d1; d2] |} ] in
  (∀ doc, process_legal_document d1 ≠ Returns (Some doc))
  ∧ (∀ doc, process_legal_document d2 ≠ Returns (Some doc))
  ∧ all_legal_docs run = []
  ∧ flush_log run = []
  ∧ documents (fst (stores run)) = documents (fst init).
Proof.
  cbv zeta.
  split; [intros doc; apply process_legal_document_no_document |].
  split; [intros doc; apply process_legal_document_no_document |].
  destruct (run_files_untouched init
              (omap read_records [ {| file_path := path; file_entries := [d1; d2] |} ]))
    as (Hall & Hlog & Hst & _).
  unfold process_courtlistener_files. rewrite Hall, Hlog, Hst. repeat split.
Qed.

End RunAsWritten.


(** The statement of C4's theorem on the two records of [Roe v. Wade], which
    differ in the spelling of the case name and in their text and have the
    same case name and citation once sanitized. *)
Lemma same_pair_no_id_no_row_example :
  let RT := reference_runtime 0 None in
  let run := process_courtlistener_files (fun l => l) (empty_db, [])
               [ {| file_path := lit "opinions.json";
                    file_entries := [roe_first; roe_second] |} ] in
  record_case_name roe_first = record_case_name roe_second
  ∧ record_citation roe_first = record_citation roe_second
  ∧ (∀ doc, process_legal_document roe_first ≠ Returns (Some doc))
  ∧ (∀ doc, process_legal_document roe_second ≠ Returns (Some doc))
  ∧ all_legal_docs run = []
  ∧ flush_log run = []
  ∧ documents (fst (stores run)) = [].
Proof.
  intros RT run.
  split; [vm_compute; reflexivity |]. split; [vm_compute; reflexivity |].
  apply (same_pair_no_id_no_row (RT := RT) (fun l => l)).
  intros l. reflexivity.
Defined.

(* ===================================================================== *)
(** * Part III. Further properties of the code *)
(* ===================================================================== *)

(** ** The shape of a sanitized field *)

Lemma sub_space_runs_from_length (b : bool) (s : str) :
  length (sub_space_runs_from b s) ≤ length s.
Proof.
  revert b. induction s as [|c r IH]; intros b; simpl; [lia |].
  pose proof (IH true). pose proof (IH false).
  destruct (isspace c); [destruct b |]; simpl; lia.
Qed.

Lemma replace_length (a b : char) (s : str) : length (replace a b s) = length s.
Proof. apply length_map. Qed.

(** In a collapsed text every white-space character is a space, and no two
    white-space characters are neighbours. *)
Lemma collapsed_spaces (b : bool) (s : str) :
  collapsed b s → Forall (fun c => isspace c = true → c = SP) s.
Proof.
  revert b. induction s as [|c r IH]; intros b; simpl; [constructor |].
  destruct (isspace c) eqn:Hc.
  - intros (_ & -> & H). constructor; [reflexivity | eapply IH, H].
  - intros H. constructor; [congruence | eapply IH, H].
Qed.

Lemma collapsed_no_neighbours (b : bool) (s l1 l2 : str) (x y : char) :
  collapsed b s → s = l1 ++ x :: y :: l2 → isspace x = true → isspace y = false.
Proof.
  intros H -> Hx. apply collapsed_app_r in H. simpl in H. rewrite Hx in H.
  destruct H as (_ & _ & H). destruct (isspace y); [destruct H; discriminate | reflexivity].
Qed.

Section SanitizedShape.
Context `{RT : Runtime}.

Lemma sanitize_str_length (text : str) : length (sanitize_str text) ≤ length text.
Proof.
  unfold sanitize_str.
  etransitivity; [apply strip_length |].
  etransitivity; [apply sub_space_runs_from_length |].
  rewrite length_map, !replace_length. reflexivity.
Qed.

(** X1.  A sanitized field is never longer than the text it comes from; its
    only white space is single spaces between other characters: every
    white-space character of it is a space, no two of them are neighbours, and
    [strip] leaves it unchanged. *)
Theorem sanitize_text_input_single_spaced (text : value) :
  let out := sanitize_text_input text in
  length out ≤ length (py_str text)
  ∧ Forall (fun c => isspace c = true → c = SP) out
  ∧ (∀ l1 l2 x y, out = l1 ++ x :: y :: l2 → isspace x = true → isspace y = false)
  ∧ strip out = out.
Proof.
  unfold sanitize_text_input. destruct (negb (truthy text)).
  - repeat split.
    + simpl. lia.
    + constructor.
    + intros l1 l2 x y H. destruct l1; discriminate H.
  - split; [apply sanitize_str_length |].
    split; [eapply collapsed_spaces, sanitize_str_collapsed |].
    split.
    + intros l1 l2 x y. apply (collapsed_no_neighbours false), sanitize_str_collapsed.
    + unfold sanitize_str. apply strip_idempotent.
Qed.

(** X2.  None of them occurs in a sanitized field. *)
Theorem sanitize_text_input_no_metacharacter (text : value) (c : char) :
  In c pattern_metacharacters → ¬ In c (sanitize_text_input text).
Proof.
  intros Hc Hin.
  assert (Hsafe : is_safe c = true).
  { unfold sanitize_text_input in Hin. destruct (negb (truthy text)); [destruct Hin |].
    exact (proj1 (List.Forall_forall _ _) (sanitize_str_all_safe (py_str text)) c Hin). }
  assert (Hunsafe : Forall (fun m => is_safe m = false) pattern_metacharacters)
    by (repeat constructor).
  pose proof (proj1 (List.Forall_forall _ _) Hunsafe c Hc). congruence.
Qed.

End SanitizedShape.

(** The statement of X2 on a field full of such characters. *)
Lemma sanitize_text_input_no_metacharacter_example :
  In (chr "*") pattern_metacharacters
  ∧ sanitize_text_input (RT := reference_runtime 0 None)
      (VStr (lit "  Roe [v.] Wade? {x}|y  $5 * 3^2 + <b>  "))
    = lit "Roe (v.) Wade (x)-y 5 3 2 b"
  ∧ ¬ In (chr "*")
        (sanitize_text_input (RT := reference_runtime 0 None)
           (VStr (lit "  Roe [v.] Wade? {x}|y  $5 * 3^2 + <b>  "))).
Proof.
  split; [vm_compute; tauto |]. split; [vm_compute; reflexivity |].
  apply (sanitize_text_input_no_metacharacter (RT := reference_runtime 0 None)).
  vm_compute; tauto.
Defined.

(** ** Cleaning and processing as written *)

Section AsWritten.
Context `{RT : Runtime}.

(** X3.  [clean_text] returns only for the empty text, with the empty text;
    on every other text it raises, at its last substitution. *)
Theorem clean_text_returns_on_empty_only (text : str) :
  clean_text text = if is_empty text then Some [] else None.
Proof.
  destruct text as [|c r]; [reflexivity |].
  cbn [is_empty]. apply clean_text_raises. discriminate.
Qed.

(** X4.  What [process_legal_document] gives, record by record: it raises,
    out of its own handler, exactly for a record that holds a text and whose
    value under [full_text] has no slice; for every other record it returns
    [None].  It returns a document for no record. *)
Theorem process_legal_document_outcomes (doc_data : gmap string value) :
  process_legal_document doc_data
  = match dict_get doc_data "plain_text" (dict_get doc_data "html" (VStr [])) with
    | VStr (_ :: _) =>
        if sliceable (dict_get doc_data "full_text" (VStr [])) then Returns None else Raises
    | _ => Returns None
    end.
Proof.
  rewrite process_legal_document_outcome.
  destruct (dict_get doc_data "plain_text" (dict_get doc_data "html" (VStr [])))
    as [[|c r] | f | l] eqn:Htext; try reflexivity.
  unfold regex_error_handler.
  assert (Hp : sliceable (dict_get doc_data "plain_text" (VStr [])) = true).
  { unfold dict_get in *.
    destruct (doc_data !! "plain_text"%string) as [v|]; cbn [default] in *;
      [rewrite Htext |]; reflexivity. }
  rewrite Hp. reflexivity.
Qed.

End AsWritten.

(** ** What the classifier can return *)

Section ClassifierRange.
Context `{RT : Runtime}.

(** X5.  Whatever the text, the court level of [extract_legal_metadata] is one
    of [supreme], [appellate], [district], [administrative] and [unknown]
    (never [municipal], which [court_hierarchy] lists), the jurisdiction is
    one of [federal], [state], [local] and [unknown], the authority weight is
    the entry of [court_hierarchy] for the court level, and no binding
    jurisdiction is ever given. *)
Theorem extract_legal_metadata_range (text case_name : str) :
  let metadata := extract_legal_metadata text case_name in
  In (md_court_level metadata)
     (map lit ["supreme"; "appellate"; "district"; "administrative"; "unknown"]%string)
  ∧ In (md_jurisdiction metadata)
       (map lit ["federal"; "state"; "local"; "unknown"]%string)
  ∧ court_hierarchy !! md_court_level metadata = Some (md_authority_weight metadata)
  ∧ md_binding_jurisdictions metadata = [].
Proof.
  unfold extract_legal_metadata.
  destruct (is_empty text); cbv zeta;
    cbn [md_court_level md_jurisdiction md_authority_weight md_binding_jurisdictions
         default_metadata].
  - split; [simpl; tauto | split; [simpl; tauto | split; reflexivity]].
  - split; [| split; [| split; [| reflexivity]]].
    + repeat match goal with
             | |- context [if ?b then _ else _] => destruct b
             end; simpl; tauto.
    + repeat match goal with
             | |- context [if ?b then _ else _] => destruct b
             end; simpl; tauto.
    + repeat match goal with
             | |- context [if ?b then _ else _] => destruct b
             end; reflexivity.
Qed.

(** X6.  The validation of citations is a placeholder: the validated list has
    one entry per extracted citation, in the same order, each marked valid
    and carrying the court level of the document. *)
Theorem extract_legal_metadata_validates_everything (text case_name : str) :
  let metadata := extract_legal_metadata text case_name in
  map cc_citation (md_citations_validated metadata) = md_citations_extracted metadata
  ∧ Forall (fun v => cc_valid v = true ∧ cc_authority_level v = md_court_level metadata)
           (md_citations_validated metadata).
Proof.
  unfold extract_legal_metadata.
  destruct (is_empty text); cbv zeta;
    cbn [md_court_level md_citations_validated md_citations_extracted default_metadata].
  - split; [reflexivity | constructor].
  - split.
    + rewrite map_map. simpl. apply map_id.
    + apply Forall_map, Forall_forall. intros c _. split; reflexivity.
Qed.

(** X7.  The weight of a court row follows [determine_court_level] through the
    table of [calculate_court_authority_weight]; a name with no keyword weighs
    0.3 there, where [court_hierarchy] gives 0.1 to the level [unknown]. *)
Theorem calculate_court_authority_weight_table (court_name : str) :
  let level := determine_court_level court_name in
  let weight := calculate_court_authority_weight court_name in
  (level = lit "supreme" ∧ weight = 1.0%float)
  ∨ (level = lit "appellate" ∧ weight = 0.8%float)
  ∨ (level = lit "district" ∧ weight = 0.6%float)
  ∨ (level = lit "unknown" ∧ weight = 0.3%float
     ∧ court_hierarchy !! level = Some 0.1%float).
Proof.
  unfold calculate_court_authority_weight, determine_court_level.
  repeat match goal with
         | |- context [if ?b then _ else _] => destruct b
         end; cbv zeta.
  - left. split; reflexivity.
  - right. left. split; reflexivity.
  - right. right. left. split; reflexivity.
  - right. right. right. repeat split; reflexivity.
Qed.

End ClassifierRange.


(** ** More on the chunker *)

Lemma lstrip_spaces (s : str) : Forall (fun c => isspace c = true) s → lstrip s = [].
Proof. induction 1 as [|c r Hc _ IH]; simpl; [reflexivity |]. rewrite Hc. exact IH. Qed.

Lemma strip_spaces (s : str) : Forall (fun c => isspace c = true) s → strip s = [].
Proof.
  intros H. unfold strip, rstrip.
  rewrite (lstrip_spaces (rev s)) by (apply Forall_rev, H). reflexivity.
Qed.

Lemma split_blank_acc_Forall (P : char → Prop) (n : nat) (s piece : str) :
  length s ≤ n → Forall P piece → Forall P s →
  Forall (Forall P) (split_blank_acc piece s).
Proof.
  revert s piece. induction n as [|n IH]; intros s piece Hn Hp Hs.
  - destruct s; [| simpl in Hn; lia]. simpl. constructor; [apply Forall_rev, Hp | constructor].
  - destruct s as [|c [|c' r']].
    + simpl. constructor; [apply Forall_rev, Hp | constructor].
    + simpl. constructor; [| constructor].
      apply Forall_app. split; [apply Forall_rev, Hp | exact Hs].
    + rewrite split_blank_acc_step.
      inversion Hs as [|? ? Hc Hs']; subst. inversion Hs' as [|? ? Hc' Hr']; subst.
      destruct ((c =? NL)%N && (c' =? NL)%N).
      * constructor; [apply Forall_rev, Hp |].
        apply IH; [simpl in *; lia | constructor | exact Hr'].
      * apply IH; [simpl in *; lia | constructor; assumption | exact Hs'].
Qed.

Lemma split_blank_Forall (P : char → Prop) (s : str) :
  Forall P s → Forall (Forall P) (split_blank s).
Proof.
  intros H. unfold split_blank.
  apply (split_blank_acc_Forall P (length s)); [lia | constructor | exact H].
Qed.

Lemma nonblank_strip (s : str) : nonblank s → nonblank (strip s).
Proof.
  intros H. destruct (strip_middle s) as (d1 & d2 & Hs & H1 & H2).
  unfold nonblank in *. rewrite Hs in H.
  apply Exists_app in H as [H | H].
  - apply Exists_exists in H as (c & Hin & Hc).
    rewrite Forall_forall in H1. apply H1 in Hin. congruence.
  - apply Exists_app in H as [H | H]; [exact H |].
    apply Exists_exists in H as (c & Hin & Hc).
    rewrite Forall_forall in H2. apply H2 in Hin. congruence.
Qed.

Lemma stripped_nonblank (p : str) : p ≠ [] → strip p = p → nonblank p.
Proof.
  intros Hne Hp. destruct p as [|c r]; [contradiction |].
  constructor. eapply strip_head, Hp.
Qed.

Lemma is_empty_false {A} (l : list A) : is_empty l = false → l ≠ [].
Proof. destruct l; [discriminate | discriminate]. Qed.

Section ChunkerMore.
Context `{RT : Runtime}.

(** X8.  A text of white space only, the empty text included, gives no
    chunk. *)
Theorem chunk_legal_document_blank_text (text : str) (max_chunk_size : Z) :
  Forall (fun c => isspace c = true) text →
  chunk_legal_document text max_chunk_size = [].
Proof.
  intros H. unfold chunk_legal_document.
  pose proof (split_blank_Forall _ text H) as Hps.
  assert (Hfold : fold_left (add_paragraph max_chunk_size) (split_blank text) ([], [])
                  = ([], [])).
  { induction Hps as [|p ps Hp _ IH]; [reflexivity |].
    simpl. unfold add_paragraph at 2. rewrite (strip_spaces p Hp). exact IH. }
  rewrite Hfold. reflexivity.
Qed.

Lemma flush_allowed (max_chunk_size : Z) (ps : list str) (b : str) :
  b ≠ [] → buffer_allowed max_chunk_size ps b → chunk_allowed max_chunk_size ps (strip b).
Proof.
  intros Hne [-> | [Hlen | [(p & Hp & ->) | (p & s & Hp & Hs & ->)]]].
  - contradiction.
  - left. pose proof (strip_length b). unfold len in *. lia.
  - right. left. exists p. split; [exact Hp | apply strip_idempotent].
  - right. right. exists p, s. repeat split; auto.
Qed.

Lemma add_sentence_allowed (max_chunk_size : Z) (ps : list str) (p : str)
    (st : list str * str) (sentence : str) :
  In p ps → In sentence (sent_tokenize (strip p)) →
  state_allowed max_chunk_size ps st →
  state_allowed max_chunk_size ps (add_sentence max_chunk_size st sentence).
Proof.
  intros Hp Hs [Hchunks Hbuf]. destruct st as [chunks current]. simpl in *.
  unfold add_sentence.
  destruct (len current + len sentence >? max_chunk_size)%Z eqn:Hcmp.
  - destruct (is_empty current) eqn:He; simpl.
    + split; [| exact Hbuf].
      apply Forall_app. split; [exact Hchunks |]. constructor; [| constructor].
      right. right. exists p, sentence. repeat split; auto.
    + split.
      * apply Forall_app. split; [exact Hchunks |]. constructor; [| constructor].
        apply flush_allowed; [apply is_empty_false, He | exact Hbuf].
      * right. right. right. exists p, sentence. repeat split; auto.
  - split; [exact Hchunks |]. right. left.
    rewrite Z.gtb_ltb in Hcmp. apply Z.ltb_ge in Hcmp.
    cbn [snd]. unfold len in *. rewrite !length_app. simpl. lia.
Qed.

Lemma add_sentences_allowed (max_chunk_size : Z) (ps : list str) (p : str)
    (sentences : list str) (st : list str * str) :
  In p ps → (∀ s, In s sentences → In s (sent_tokenize (strip p))) →
  state_allowed max_chunk_size ps st →
  state_allowed max_chunk_size ps (fold_left (add_sentence max_chunk_size) sentences st).
Proof.
  intros Hp. revert st. induction sentences as [|s ss IH]; intros st Hss Hst; simpl.
  - exact Hst.
  - apply IH; [intros s' Hs'; apply Hss; right; exact Hs' |].
    apply (add_sentence_allowed _ _ p); [exact Hp | apply Hss; left; reflexivity | exact Hst].
Qed.

Lemma add_paragraph_allowed (max_chunk_size : Z) (ps : list str) (p : str)
    (st : list str * str) :
  In p ps → state_allowed max_chunk_size ps st →
  state_allowed max_chunk_size ps (add_paragraph max_chunk_size st p).
Proof.
  intros Hp Hst. unfold add_paragraph.
  destruct (is_empty (strip p)) eqn:Hempty; [exact Hst |].
  destruct st as [chunks current]. destruct Hst as [Hchunks Hbuf]. simpl in *.
  destruct (len current + len (strip p) >? max_chunk_size)%Z eqn:Hcmp.
  - destruct (is_empty current) eqn:He; simpl.
    + apply (add_sentences_allowed _ _ p); [exact Hp | auto | split; assumption].
    + split.
      * apply Forall_app. split; [exact Hchunks |]. constructor; [| constructor].
        apply flush_allowed; [apply is_empty_false, He | exact Hbuf].
      * right. right. left. exists p. split; [exact Hp | reflexivity].
  - split; [exact Hchunks |]. right. left.
    rewrite Z.gtb_ltb in Hcmp. apply Z.ltb_ge in Hcmp.
    cbn [snd]. unfold len in *. rewrite !length_app. simpl. lia.
Qed.

Lemma add_paragraphs_allowed (max_chunk_size : Z) (ps done : list str)
    (st : list str * str) :
  (∀ p, In p done → In p ps) → state_allowed max_chunk_size ps st →
  state_allowed max_chunk_size ps (fold_left (add_paragraph max_chunk_size) done st).
Proof.
  revert st. induction done as [|p done IH]; intros st Hin Hst; simpl; [exact Hst |].
  apply IH; [intros q Hq; apply Hin; right; exact Hq |].
  apply add_paragraph_allowed; [apply Hin; left; reflexivity | exact Hst].
Qed.

(** X9.  What [chunk_legal_document] does guarantee, for every text and every
    limit: a chunk is at most two characters longer than the limit, unless it
    is one whole paragraph of the text or one sentence of a paragraph. *)
Theorem chunk_legal_document_bound (text : str) (max_chunk_size : Z) :
  Forall (fun c =>
            (len c ≤ max_chunk_size + 2)%Z
            ∨ (∃ p, In p (split_blank text) ∧ c = strip p)
            ∨ (∃ p s, In p (split_blank text) ∧ In s (sent_tokenize (strip p))
                      ∧ (c = s ∨ c = strip s)))
         (chunk_legal_document text max_chunk_size).
Proof.
  unfold chunk_legal_document.
  pose proof (add_paragraphs_allowed max_chunk_size (split_blank text) (split_blank text)
                ([], []) (fun p H => H)) as H.
  destruct (fold_left (add_paragraph max_chunk_size) (split_blank text) ([], []))
    as [chunks current].
  destruct H as [Hchunks Hbuf]; [split; [constructor | left; reflexivity] |].
  simpl in *. destruct (is_empty current) eqn:He; simpl; [exact Hchunks |].
  apply Forall_app. split; [exact Hchunks |]. constructor; [| constructor].
  apply (flush_allowed max_chunk_size (split_blank text));
    [apply is_empty_false, He | exact Hbuf].
Qed.

Lemma flush_nonblank (b : str) : b ≠ [] → b = [] ∨ nonblank b → nonblank (strip b).
Proof. intros Hne [-> | H]; [contradiction | apply nonblank_strip, H]. Qed.

Lemma add_sentence_nonblank (max_chunk_size : Z) (st : list str * str) (sentence : str) :
  nonblank sentence → state_nonblank st →
  state_nonblank (add_sentence max_chunk_size st sentence).
Proof.
  intros Hs [Hchunks Hbuf]. destruct st as [chunks current]. simpl in *.
  unfold add_sentence.
  destruct (len current + len sentence >? max_chunk_size)%Z.
  - destruct (is_empty current) eqn:He; simpl.
    + split; [| exact Hbuf]. apply Forall_app. split; [exact Hchunks |]. repeat constructor.
      exact Hs.
    + split; [| right; exact Hs].
      apply Forall_app. split; [exact Hchunks |]. constructor; [| constructor].
      apply flush_nonblank; [apply is_empty_false, He | exact Hbuf].
  - split; [exact Hchunks |]. right. unfold nonblank.
    apply Exists_app. right. right. exact Hs.
Qed.

Lemma add_paragraph_nonblank (max_chunk_size : Z) (st : list str * str) (p : str) :
  tokenizer_gives_no_blank → state_nonblank st →
  state_nonblank (add_paragraph max_chunk_size st p).
Proof.
  intros Htok Hst. unfold add_paragraph.
  destruct (is_empty (strip p)) eqn:Hempty; [exact Hst |].
  apply is_empty_false in Hempty.
  pose proof (stripped_nonblank (strip p) Hempty (strip_idempotent p)) as Hnb.
  destruct st as [chunks current]. destruct Hst as [Hchunks Hbuf]. simpl in *.
  destruct (len current + len (strip p) >? max_chunk_size)%Z.
  - destruct (is_empty current) eqn:He; simpl.
    + pose proof (Htok (strip p) Hempty (strip_idempotent p)) as Hss.
      assert (Hst : state_nonblank (chunks, current)) by (split; assumption).
      revert Hst. generalize (chunks, current).
      induction Hss as [|s ss Hs _ IH]; intros st Hst; simpl; [exact Hst |].
      apply IH, add_sentence_nonblank; assumption.
    + split; [| right; exact Hnb].
      apply Forall_app. split; [exact Hchunks |]. constructor; [| constructor].
      apply flush_nonblank; [apply is_empty_false, He | exact Hbuf].
  - split; [exact Hchunks |]. right. unfold nonblank.
    apply Exists_app. right. right. right. exact Hnb.
Qed.

(** X10.  When the tokenizer gives no blank sentence, no chunk is empty or
    blank: every chunk has a character that is not white space. *)
Theorem chunk_legal_document_no_blank_chunk (text : str) (max_chunk_size : Z) :
  tokenizer_gives_no_blank →
  Forall nonblank (chunk_legal_document text max_chunk_size).
Proof.
  intros Htok. unfold chunk_legal_document.
  assert (H : ∀ ps st, state_nonblank st →
                state_nonblank (fold_left (add_paragraph max_chunk_size) ps st)).
  { induction ps as [|p ps IH]; intros st Hst; simpl; [exact Hst |].
    apply IH, add_paragraph_nonblank; assumption. }
  specialize (H (split_blank text) ([], [])).
  destruct (fold_left (add_paragraph max_chunk_size) (split_blank text) ([], []))
    as [chunks current].
  destruct H as [Hchunks Hbuf]; [split; [constructor | left; reflexivity] |].
  simpl in *. destruct (is_empty current) eqn:He; simpl; [exact Hchunks |].
  apply Forall_app. split; [exact Hchunks |]. constructor; [| constructor].
  apply flush_nonblank; [apply is_empty_false, He | exact Hbuf].
Qed.

End ChunkerMore.

(** The statement of X8 on a text of spaces, a tab and line feeds. *)
Lemma chunk_legal_document_blank_text_example :
  chunk_legal_document (RT := reference_runtime 0 None) [SP; SP; NL; NL; SP; 9%N; NL] 1000
  = [].
Proof.
  apply (chunk_legal_document_blank_text (RT := reference_runtime 0 None)).
  repeat constructor.
Defined.

(** The reference tokenizer gives no blank sentence. *)
Lemma is_terminator_not_space (c : char) : is_terminator c = true → isspace c = false.
Proof.
  unfold is_terminator. intros H.
  apply orb_true_iff in H as [H | H]; [apply orb_true_iff in H as [H | H] |];
    apply N.eqb_eq in H; subst c; reflexivity.
Qed.

Lemma nonblank_rev_cons (c : char) (cur : str) :
  isspace c = false → nonblank (rev (c :: cur)).
Proof.
  intros H. simpl. unfold nonblank. apply Exists_app. right. constructor. exact H.
Qed.

Lemma split_sentences_acc_nonblank (n : nat) (s cur : str) :
  length s ≤ n →
  (∀ r c, s = r ++ [c] → isspace c = false) →
  (s = [] → cur = []) →
  Forall nonblank (split_sentences_acc cur s).
Proof.
  revert s cur. induction n as [|n IH]; intros s cur Hn Hlast Hcur.
  - destruct s; [| simpl in Hn; lia]. rewrite (Hcur eq_refl). constructor.
  - destruct s as [|c [|c' r']].
    + rewrite (Hcur eq_refl). constructor.
    + simpl. constructor; [| constructor].
      apply (nonblank_rev_cons c cur), (Hlast [] c). reflexivity.
    + rewrite split_sentences_acc_step.
      destruct (is_terminator c && (c' =? SP)%N) eqn:Hend.
      * apply andb_true_iff in Hend as [Hc _].
        constructor; [apply nonblank_rev_cons, is_terminator_not_space, Hc |].
        apply IH; [simpl in *; lia | | reflexivity].
        intros r x ->. apply (Hlast (c :: c' :: r) x). reflexivity.
      * apply IH; [simpl in *; lia | | discriminate].
        intros r x Hr. apply (Hlast (c :: r) x). rewrite Hr. reflexivity.
Qed.

Lemma split_sentences_gives_no_blank (salt : Z) (tokenizer : option Tokenizer) :
  tokenizer_gives_no_blank (RT := reference_runtime salt tokenizer).
Proof.
  intros p Hne Hp. simpl. unfold split_sentences.
  apply (split_sentences_acc_nonblank (length p)); [lia | | intros ->; contradiction].
  intros r c Hr. apply (strip_last p r c). rewrite Hp. exact Hr.
Qed.

(** The statement of X10 on a text of two paragraphs, the first cut at its
    sentences, with a blank paragraph between them. *)
Lemma chunk_legal_document_no_blank_chunk_example :
  tokenizer_gives_no_blank (RT := reference_runtime 0 None)
  ∧ chunk_legal_document (RT := reference_runtime 0 None)
      (lit "Cdefghijk. Lm. " ++ [NL; NL; SP; NL; NL] ++ lit "Ab.") 8
    = [lit "Cdefghijk."; lit "Lm." ++ [NL; NL] ++ lit "Ab."]
  ∧ Forall nonblank
      (chunk_legal_document (RT := reference_runtime 0 None)
         (lit "Cdefghijk. Lm. " ++ [NL; NL; SP; NL; NL] ++ lit "Ab.") 8).
Proof.
  split; [apply split_sentences_gives_no_blank |].
  split; [vm_compute; reflexivity |].
  apply (chunk_legal_document_no_blank_chunk (RT := reference_runtime 0 None)).
  apply split_sentences_gives_no_blank.
Defined.

(** The bound of X9 is reached: with a limit of 3 this chunk of two
    paragraphs is 5 characters long. *)
Lemma chunk_legal_document_bound_reached :
  chunk_legal_document (RT := reference_runtime 0 None)
    (lit "ab" ++ [NL; NL] ++ lit "cd" ++ [NL; NL] ++ lit "e") 3
  = [lit "ab"; lit "cd" ++ [NL; NL] ++ lit "e"]
  ∧ len (lit "cd" ++ [NL; NL] ++ lit "e") = (3 + 2)%Z.
Proof. split; vm_compute; reflexivity. Qed.

(** ** Batches *)

Lemma range_step_cons (stop step : nat) :
  0 < step → 0 < stop →
  range_step stop step = 0 :: map (fun i => step + i) (range_step (stop - step) step).
Proof.
  intros Hstep Hstop. unfold range_step.
  assert (Hq : (stop + step - 1) / step = S ((stop - step + step - 1) / step)).
  { destruct (le_lt_dec step stop) as [Hle | Hlt].
    - replace (stop + step - 1) with ((stop - 1) + 1 * step) by lia.
      rewrite Nat.div_add by lia.
      replace (stop - step + step - 1) with (stop - 1) by lia. lia.
    - replace (stop + step - 1) with ((stop - 1) + 1 * step) by lia.
      rewrite Nat.div_add by lia.
      replace (stop - step + step - 1) with (step - 1) by lia.
      rewrite !Nat.div_small by lia. reflexivity. }
  rewrite Hq. cbn [seq map]. f_equal.
  rewrite <- seq_shift, !map_map. apply map_ext. intros k. lia.
Qed.

Lemma batches_nil {A} (n : nat) : 0 < n → batches n (@nil A) = [].
Proof.
  intros Hn. unfold batches, range_step. simpl.
  rewrite Nat.div_small by lia. reflexivity.
Qed.

(** The first batch is [l[0:n]], the others are the batches of [l[n:]]. *)
Lemma batches_cons {A} (n : nat) (l : list A) :
  0 < n → l ≠ [] → batches n l = firstn n l :: batches n (skipn n l).
Proof.
  intros Hn Hl. unfold batches.
  rewrite range_step_cons; [| exact Hn | destruct l; [contradiction | simpl; lia]].
  cbn [map]. f_equal. rewrite length_skipn, map_map.
  apply map_ext. intros i. unfold slice. rewrite drop_drop. reflexivity.
Qed.

Lemma concat_batches {A} (n : nat) (l : list A) : 0 < n → concat (batches n l) = l.
Proof.
  intros Hn. remember (length l) as k eqn:Hk. revert l Hk.
  induction k as [k IH] using lt_wf_ind. intros l Hk.
  destruct l as [|a l]; [rewrite batches_nil by exact Hn; reflexivity |].
  rewrite batches_cons by (exact Hn || discriminate).
  cbn [concat]. rewrite (IH (length (skipn n (a :: l)))); [apply firstn_skipn | | reflexivity].
  rewrite length_skipn. simpl in *. lia.
Qed.

(** ** The embeddings of a list of texts *)

Section Embeddings.
Context `{RT : Runtime}.

Lemma mapM_pointwise (f : str → vector) (bs : list (list str)) :
  (∀ batch, embedding_encode batch = Some (map f batch)) →
  mapM embedding_encode bs = Some (map (map f) bs).
Proof.
  intros Hf. induction bs as [|b bs IH]; [reflexivity |].
  cbn [mapM map]. rewrite Hf, IH. reflexivity.
Qed.

(** X11.  With a model that embeds every batch text by text,
    [generate_embeddings] returns one vector per text, in the order of the
    texts, whatever their number: the batches of 32 partition the list. *)
Theorem generate_embeddings_one_per_text (f : str → vector) (texts : list str) :
  (∀ batch, embedding_encode batch = Some (map f batch)) →
  generate_embeddings texts = map f texts.
Proof.
  intros Hf. unfold generate_embeddings.
  destruct texts as [|t texts]; [reflexivity |].
  cbn [is_empty]. rewrite (mapM_pointwise f) by exact Hf.
  rewrite <- concat_map, concat_batches by lia. reflexivity.
Qed.

(** X12.  When the model raises on one batch, [generate_embeddings] returns
    the empty list: the vectors of the batches embedded before are dropped. *)
Theorem generate_embeddings_all_or_nothing (texts : list str) :
  Exists (fun batch => embedding_encode batch = None) (batches 32 texts) →
  generate_embeddings texts = [].
Proof.
  intros Hex. unfold generate_embeddings.
  destruct (is_empty texts); [reflexivity |].
  destruct (mapM embedding_encode (batches 32 texts)) as [per_batch|] eqn:Hm; [| reflexivity].
  apply mapM_Some in Hm. exfalso.
  apply Exists_exists in Hex as (b & Hb & Hnone).
  apply list_elem_of_lookup in Hb as [i Hi].
  destruct (Forall2_lookup_l _ _ _ _ _ Hm Hi) as (vs & _ & Hvs).
  congruence.
Qed.

End Embeddings.

(** The statement of X11 on 70 texts, three batches. *)
Lemma generate_embeddings_one_per_text_example :
  generate_embeddings (RT := reference_runtime 0 None) (repeat (lit "a") 70)
  = map (fun _ => [1.0%float]) (repeat (lit "a") 70).
Proof.
  apply (generate_embeddings_one_per_text (RT := reference_runtime 0 None)).
  intros batch. reflexivity.
Defined.

(** The statement of X12 on 33 texts: the first batch of 32 is embedded, the
    second, of one text, raises. *)
Lemma generate_embeddings_all_or_nothing_example :
  map length (batches 32 (repeat (lit "a") 33)) = [32; 1]
  ∧ generate_embeddings (RT := short_batch_failure_runtime) (repeat (lit "a") 33) = [].
Proof.
  split; [vm_compute; reflexivity |].
  apply (generate_embeddings_all_or_nothing (RT := short_batch_failure_runtime)).
  apply Exists_exists. exists [lit "a"]. split; [| reflexivity].
  vm_compute. right. left.
Defined.

(** ** Writing by key *)

Lemma filter_filter_same {A} (P : A → Prop) `{∀ x, Decision (P x)} (l : list A) :
  filter P (filter P l) = filter P l.
Proof.
  rewrite list_filter_filter. apply list_filter_iff. intros r. tauto.
Qed.

Section Upsert.
Context {A K : Type} `{EqDecision K}.
Variable key : A → K.

Abbreviation put := (put key).

Lemma filter_no_key (l : list A) : filter (fun r => key r ∉ @nil K) l = l.
Proof.
  induction l as [|a l IH]; [reflexivity |].
  rewrite filter_cons. destruct (decide (key a ∉ [])) as [_ | Hin].
  - f_equal. exact IH.
  - exfalso. apply Hin. apply not_elem_of_nil.
Qed.

Lemma filter_key_snoc (ks : list K) (k : K) (l : list A) :
  filter (fun r => key r ≠ k) (filter (fun r => key r ∉ ks) l)
  = filter (fun r => key r ∉ ks ++ [k]) l.
Proof.
  rewrite list_filter_filter. apply list_filter_iff. intros r.
  rewrite not_elem_of_app, not_elem_of_cons. split.
  - intros [Hk Hks]. split; [exact Hks | split; [exact Hk | apply not_elem_of_nil]].
  - intros [Hks [Hk _]]. split; assumption.
Qed.

(** Writing [xs] onto [l] keeps the rows of [l] whose key is not written, in
    their order, and appends what writing [xs] onto nothing gives. *)
Lemma fold_put_split (xs l : list A) :
  fold_left put xs l
  = filter (fun r => key r ∉ map key xs) l ++ fold_left put xs [].
Proof.
  induction xs as [|x xs IH] using rev_ind.
  - simpl. rewrite filter_no_key, app_nil_r. reflexivity.
  - rewrite !fold_left_app. cbn [fold_left]. rewrite IH. unfold put at 1 3.
    rewrite filter_app, filter_key_snoc, map_app, <- app_assoc. reflexivity.
Qed.

Lemma fold_put_keys (xs : list A) :
  Forall (fun r => key r ∈ map key xs) (fold_left put xs []).
Proof.
  induction xs as [|x xs IH] using rev_ind; [constructor |].
  rewrite fold_left_app. cbn [fold_left]. unfold put.
  apply Forall_app. split.
  - apply Forall_forall. intros r Hr. apply list_elem_of_filter in Hr as [_ Hr].
    rewrite Forall_forall in IH. rewrite map_app. apply elem_of_app. left. apply IH, Hr.
  - constructor; [| constructor]. rewrite map_app. apply elem_of_app. right.
    apply list_elem_of_singleton. reflexivity.
Qed.

Lemma filter_written (xs : list A) :
  filter (fun r => key r ∉ map key xs) (fold_left put xs []) = [].
Proof.
  pose proof (fold_put_keys xs) as Hk.
  induction (fold_left put xs []) as [|r l IH]; [reflexivity |].
  inversion Hk as [|? ? Hr Hl]; subst.
  rewrite filter_cons. destruct (decide (key r ∉ map key xs)); [contradiction | apply IH, Hl].
Qed.


(** The row of a key is the last one written with it. *)
Lemma put_other (l : list A) (x : A) (k : K) :
  key x ≠ k → filter (fun r => key r = k) (put l x) = filter (fun r => key r = k) l.
Proof.
  intros Hne. unfold put. rewrite filter_app, list_filter_filter.
  rewrite filter_cons. destruct (decide (key x = k)); [contradiction |].
  rewrite filter_nil, app_nil_r. apply list_filter_iff. intros r. split.
  - intros [Hk _]. exact Hk.
  - intros Hk. split; [exact Hk | congruence].
Qed.

Lemma put_same (l : list A) (x : A) :
  filter (fun r => key r = key x) (put l x) = [x].
Proof.
  unfold put. rewrite filter_app, list_filter_filter.
  rewrite (filter_cons _ x). destruct (decide (key x = key x)); [| contradiction].
  rewrite filter_nil.
  replace (filter _ l) with (@nil A); [reflexivity |].
  symmetry. induction l as [|a l IH]; [reflexivity |].
  rewrite filter_cons. destruct (decide _) as [[H1 H2] |]; [contradiction | exact IH].
Qed.

Lemma fold_put_others (xs l : list A) (k : K) :
  Forall (fun x => key x ≠ k) xs →
  filter (fun r => key r = k) (fold_left put xs l) = filter (fun r => key r = k) l.
Proof.
  intros Hxs. revert l. induction Hxs as [|x xs Hx _ IH]; intros l; [reflexivity |].
  cbn [fold_left]. rewrite IH. apply put_other, Hx.
Qed.

Lemma fold_put_latest (l1 l2 l : list A) (x : A) :
  Forall (fun y => key y ≠ key x) l2 →
  filter (fun r => key r = key x) (fold_left put (l1 ++ x :: l2) l) = [x].
Proof.
  intros Hl2. rewrite fold_left_app. cbn [fold_left].
  rewrite fold_put_others by exact Hl2. apply put_same.
Qed.

End Upsert.

(** ** The relational cache, batch by batch *)

Lemma documents_store_in_sqlite (legal_docs : list LegalDocument) (db : sqlite_db) :
  documents (store_in_sqlite db legal_docs)
  = fold_left (put row_id) (map document_row_of (stored legal_docs)) (documents db).
Proof.
  unfold store_in_sqlite, stored. revert db.
  induction legal_docs as [|doc docs IH]; intros db; [reflexivity |].
  cbn [fold_left]. rewrite IH, filter_cons. unfold store_document.
  destruct (row_binds (document_row_of doc)).
  - destruct (decide (true = true)); [reflexivity | contradiction].
  - destruct (decide (false = true)); [discriminate | reflexivity].
Qed.

Lemma stored_app (l1 l2 : list LegalDocument) : stored (l1 ++ l2) = stored l1 ++ stored l2.
Proof. apply filter_app. Qed.

Lemma stored_cons (doc : LegalDocument) (l : list LegalDocument) :
  row_binds (document_row_of doc) = true → stored (doc :: l) = doc :: stored l.
Proof.
  intros Hb. unfold stored. rewrite filter_cons.
  destruct (decide (row_binds (document_row_of doc) = true)); [reflexivity | contradiction].
Qed.

(** X13.  In a batch handed to [store_in_sqlite], the row kept for an id is
    that of the last document of the batch with this id whose [INSERT] does
    not raise, whatever the cache held before; the rows of the ids that no
    stored document of the batch has stay as they were, in their order. *)
Theorem store_in_sqlite_last_document_wins
    (db : sqlite_db) (before after : list LegalDocument) (doc : LegalDocument) :
  row_binds (document_row_of doc) = true →
  Forall (fun d => doc_id d ≠ doc_id doc) (stored after) →
  let batch := before ++ doc :: after in
  let db' := store_in_sqlite db batch in
  filter (fun r => row_id r = doc_id doc) (documents db') = [document_row_of doc]
  ∧ filter (fun r => row_id r ∉ map doc_id (stored batch)) (documents db')
    = filter (fun r => row_id r ∉ map doc_id (stored batch)) (documents db).
Proof.
  intros Hb Hafter batch db'. subst db' batch. rewrite documents_store_in_sqlite. split.
  - rewrite stored_app, stored_cons, map_app by exact Hb. cbn [map].
    apply (fold_put_latest row_id _ _ _ (document_row_of doc)).
    apply Forall_map. exact Hafter.
  - rewrite fold_put_split, filter_app.
    assert (Hids : map row_id (map document_row_of (stored (before ++ doc :: after)))
                   = map doc_id (stored (before ++ doc :: after))).
    { rewrite map_map. reflexivity. }
    rewrite Hids, filter_filter_same.
    pose proof (filter_written row_id
                  (map document_row_of (stored (before ++ doc :: after)))) as Hw.
    rewrite Hids in Hw. rewrite Hw, app_nil_r. reflexivity.
Qed.


(** ** The similarity index, batch by batch *)

Section IndexMore.
Context `{RT : Runtime}.

Lemma store_in_qdrant_fold (collection : list point) (legal_docs : list LegalDocument) :
  qdrant_client = true →
  store_in_qdrant collection legal_docs
  = fold_left (put point_id) (flat_map document_points legal_docs) collection.
Proof. intros Hc. unfold store_in_qdrant. rewrite Hc. reflexivity. Qed.

Lemma document_points_unembedded (legal_docs : list LegalDocument) :
  flat_map document_points (filter (fun d => doc_embedding d ≠ None) legal_docs)
  = flat_map document_points legal_docs.
Proof.
  induction legal_docs as [|d docs IH]; [reflexivity |].
  rewrite filter_cons. destruct (decide (doc_embedding d ≠ None)) as [Hsome | Hnone].
  - cbn [flat_map]. rewrite IH. reflexivity.
  - cbn [flat_map]. rewrite IH. unfold document_points at 2.
    destruct (doc_embedding d); [exfalso; apply Hnone; discriminate | reflexivity].
Qed.

(** X15.  [store_in_qdrant] indexes nothing of a document without a document
    embedding, not even the chunk embeddings it may carry: the call is the
    call on the documents that have one.  With the client missing it indexes
    nothing at all. *)
Theorem store_in_qdrant_skips_unembedded
    (collection : list point) (legal_docs : list LegalDocument) :
  store_in_qdrant collection legal_docs
  = store_in_qdrant collection (filter (fun d => doc_embedding d ≠ None) legal_docs)
  ∧ (Forall (fun d => doc_embedding d = None) legal_docs ∨ qdrant_client = false →
     store_in_qdrant collection legal_docs = collection).
Proof.
  split.
  - unfold store_in_qdrant. rewrite document_points_unembedded. reflexivity.
  - intros [Hall | Hc]; unfold store_in_qdrant.
    + destruct (negb qdrant_client); [reflexivity |].
      replace (flat_map document_points legal_docs) with (@nil point); [reflexivity |].
      symmetry. induction Hall as [|d docs Hd _ IH]; [reflexivity |].
      cbn [flat_map]. rewrite IH. unfold document_points. rewrite Hd. reflexivity.
    + rewrite Hc. reflexivity.
Qed.


End IndexMore.

(** ** The loop of the run, for any per-document processor *)

Section CheckpointMore.
Context {Raw Doc Store : Type}.
Variable process_document : Raw → outcome (option Doc).
Variable flush : Store → list Doc → Store.
Variable completion : list (outcome (option Doc)) → list (outcome (option Doc)).

Abbreviation state := (run_state (Doc := Doc) (Store := Store)).
Abbreviation batch_step := (process_batch process_document flush completion).
Abbreviation batches_step := (process_batches process_document flush completion).
Abbreviation file_step := (process_file_records process_document flush completion).
Abbreviation initial init :=
  ({| all_legal_docs := []; stores := init; processed_documents := 0; flush_log := [] |}
   : state).

Lemma process_batch_counted (st : state) (batch : list Raw) :
  counted st → counted (fst (batch_step st batch)).
Proof.
  intros [Hfull Hsum]. unfold process_batch, counted.
  destruct (gather (completion (map process_document batch))) as [docs raised].
  cbv zeta. set (all_docs := all_legal_docs st ++ docs).
  destruct raised; [split; assumption |].
  destruct (1000 <=? length all_docs) eqn:Hge;
    cbn [fst processed_documents flush_log]; [| split; assumption].
  apply Nat.leb_le in Hge.
  assert (Hlen : length (last_n 1000 all_docs) = 1000)
    by (rewrite length_last_n; lia).
  rewrite filter_app, length_app, map_app, list_sum_app, Hlen, Hsum.
  rewrite filter_cons. destruct (decide (length (last_n 1000 all_docs) = 1000));
    [| contradiction].
  rewrite filter_nil. cbn [map]. rewrite Hlen.
  replace (list_sum [1000]) with 1000 by reflexivity.
  change (length [last_n 1000 all_docs]) with 1. split; lia.
Qed.

Lemma process_batches_counted (bs : list (list Raw)) (st : state) :
  counted st → counted (batches_step st bs).
Proof.
  revert st. induction bs as [|b bs IH]; intros st Hst; [exact Hst |].
  cbn [process_batches].
  pose proof (process_batch_counted st b Hst) as Hb.
  destruct (batch_step st b) as [st' raised]. cbn [fst] in Hb.
  destruct raised; [exact Hb | apply IH, Hb].
Qed.

Lemma process_files_counted (files : list (list Raw)) (st : state) :
  counted st → counted (fold_left file_step files st).
Proof.
  revert st. induction files as [|f files IH]; intros st Hst; [exact Hst |].
  cbn [fold_left]. apply IH, process_batches_counted, Hst.
Qed.

(** X17.  The counter [processed_documents] of a run is 1,000 times the
    number of calls of the stores on 1,000 documents: a document flushed by
    two checkpoints is counted twice, and the documents of the final call,
    which holds the last [len(all_legal_docs) % 1000] of them, are not
    counted. *)
Theorem processed_documents_counts_checkpoints (init : Store) (files : list (list Raw)) :
  let run := run_files process_document flush completion init files in
  processed_documents run
  = 1000 * length (filter (fun b : list Doc => length b = 1000) (flush_log run))
  ∧ list_sum (map length (flush_log run))
    = processed_documents run + length (all_legal_docs run) mod 1000.
Proof.
  cbv zeta. unfold run_files.
  pose proof (process_files_counted files (initial init)) as Hc.
  destruct Hc as [Hfull Hsum]; [split; reflexivity |].
  set (st := fold_left _ files _) in *.
  unfold store_remaining. cbv zeta.
  pose proof (Nat.mod_upper_bound (length (all_legal_docs st)) 1000) as Hlt.
  destruct (all_legal_docs st) as [|d ds] eqn:Hall.
  - cbn [is_empty negb andb]. rewrite Hall. simpl. split; [exact Hfull | lia].
  - cbn [is_empty negb andb].
    destruct (0 <? length (d :: ds) mod 1000) eqn:Hrem.
    + cbn [processed_documents flush_log all_legal_docs].
      assert (Hlen : length (last_n (length (d :: ds) mod 1000) (d :: ds))
                     = length (d :: ds) mod 1000).
      { rewrite length_last_n.
        pose proof (Nat.Div0.mod_le (length (d :: ds)) 1000). lia. }
      rewrite filter_app, length_app, map_app, list_sum_app, filter_cons.
      destruct (decide (length (last_n (length (d :: ds) mod 1000) (d :: ds)) = 1000))
        as [Heq | _]; [rewrite Hlen in Heq; lia |].
      rewrite filter_nil. cbn [map list_sum]. rewrite Hlen.
      change (length (@nil (list Doc))) with 0.
      replace (list_sum [length (d :: ds) mod 1000]) with (length (d :: ds) mod 1000)
        by (unfold list_sum; cbn [fold_right]; lia).
      split; lia.
    + apply Nat.ltb_ge in Hrem. rewrite Hall. split; [exact Hfull | lia].
Qed.

Lemma store_remaining_gathered (st : state) :
  all_legal_docs (store_remaining flush st) = all_legal_docs st.
Proof.
  unfold store_remaining. cbv zeta.
  destruct (negb (is_empty (all_legal_docs st)) && _); reflexivity.
Qed.

(** Below 1,000 gathered documents no checkpoint fires. *)
Lemma process_batch_quiet (st : state) (batch : list Raw) :
  length (all_legal_docs (fst (batch_step st batch))) < 1000 →
  quiet st (fst (batch_step st batch)).
Proof.
  unfold process_batch, quiet.
  destruct (gather (completion (map process_document batch))) as [docs raised].
  cbv zeta. set (all_docs := all_legal_docs st ++ docs).
  assert (Hgrow : length (all_legal_docs st) ≤ length all_docs)
    by (subst all_docs; rewrite length_app; lia).
  destruct raised; [intros _; repeat split; exact Hgrow |].
  destruct (1000 <=? length all_docs) eqn:Hge; cbn [fst all_legal_docs].
  - apply Nat.leb_le in Hge. lia.
  - intros _. repeat split. exact Hgrow.
Qed.

Lemma process_batch_grows (st : state) (batch : list Raw) :
  length (all_legal_docs st) ≤ length (all_legal_docs (fst (batch_step st batch))).
Proof.
  unfold process_batch.
  destruct (gather (completion (map process_document batch))) as [docs raised].
  cbv zeta. set (all_docs := all_legal_docs st ++ docs).
  assert (Hgrow : length (all_legal_docs st) ≤ length all_docs)
    by (subst all_docs; rewrite length_app; lia).
  destruct raised; [exact Hgrow |].
  destruct (1000 <=? length all_docs); exact Hgrow.
Qed.

Lemma quiet_trans (st1 st2 st3 : state) : quiet st1 st2 → quiet st2 st3 → quiet st1 st3.
Proof.
  intros (Hl & Hn & Hs & Hlen) (Hl' & Hn' & Hs' & Hlen'). unfold quiet.
  rewrite Hl', Hn', Hs'. repeat split; try assumption. lia.
Qed.

Lemma process_batches_grow (bs : list (list Raw)) (st : state) :
  length (all_legal_docs st) ≤ length (all_legal_docs (batches_step st bs)).
Proof.
  revert st. induction bs as [|b bs IH]; intros st; [reflexivity |].
  cbn [process_batches]. pose proof (process_batch_grows st b) as Hb.
  destruct (batch_step st b) as [st' raised]. cbn [fst] in Hb.
  destruct raised; [exact Hb |]. specialize (IH st'). lia.
Qed.

Lemma process_batches_quiet (bs : list (list Raw)) (st : state) :
  length (all_legal_docs (batches_step st bs)) < 1000 →
  quiet st (batches_step st bs).
Proof.
  revert st. induction bs as [|b bs IH]; intros st Hlt.
  - repeat split. reflexivity.
  - cbn [process_batches] in *. pose proof (process_batch_quiet st b) as Hb.
    destruct (batch_step st b) as [st' raised]. cbn [fst] in Hb.
    destruct raised; [exact (Hb Hlt) |].
    pose proof (process_batches_grow bs st') as Hgrow.
    apply (quiet_trans st st'); [apply Hb; lia | apply IH, Hlt].
Qed.

Lemma process_files_grow (files : list (list Raw)) (st : state) :
  length (all_legal_docs st) ≤ length (all_legal_docs (fold_left file_step files st)).
Proof.
  revert st. induction files as [|f files IH]; intros st; [reflexivity |].
  cbn [fold_left]. specialize (IH (file_step st f)).
  pose proof (process_batches_grow (batches 100 f) st) as Hf.
  unfold process_file_records in *. lia.
Qed.

Lemma process_files_quiet (files : list (list Raw)) (st : state) :
  length (all_legal_docs (fold_left file_step files st)) < 1000 →
  quiet st (fold_left file_step files st).
Proof.
  revert st. induction files as [|f files IH]; intros st Hlt.
  - repeat split. reflexivity.
  - cbn [fold_left] in *.
    pose proof (process_files_grow files (file_step st f)) as Hgrow.
    apply (quiet_trans st (file_step st f)); [| apply IH, Hlt].
    apply process_batches_quiet. unfold process_file_records in *. lia.
Qed.

(** X18.  A run that gathers fewer than 1,000 documents calls the stores
    once, at the end, on all the documents it gathered, or not at all when
    it gathered none, and its counter of processed documents stays at 0. *)
Theorem run_below_first_checkpoint (init : Store) (files : list (list Raw)) :
  let run := run_files process_document flush completion init files in
  length (all_legal_docs run) < 1000 →
  flush_log run = (if is_empty (all_legal_docs run) then [] else [all_legal_docs run])
  ∧ stores run = (if is_empty (all_legal_docs run) then init
                  else flush init (all_legal_docs run))
  ∧ processed_documents run = 0.
Proof.
  cbv zeta. unfold run_files. rewrite store_remaining_gathered. intros Hlt.
  destruct (process_files_quiet files (initial init) Hlt) as (Hlog & Hn & Hs & _).
  set (st := fold_left _ files _) in *.
  unfold store_remaining. cbv zeta. cbn [flush_log processed_documents stores] in *.
  destruct (all_legal_docs st) as [|d ds] eqn:Hall.
  - cbn [is_empty negb andb]. repeat split; assumption.
  - cbn [is_empty negb andb].
    rewrite Nat.mod_small by exact Hlt.
    replace (0 <? length (d :: ds)) with true by (symmetry; apply Nat.ltb_lt; simpl; lia).
    cbn [flush_log processed_documents stores all_legal_docs is_empty].
    assert (Hall' : last_n (length (d :: ds)) (d :: ds) = d :: ds)
      by (unfold last_n; rewrite Nat.sub_diag; reflexivity).
    rewrite Hall', Hlog, Hs. repeat split; assumption.
Qed.

End CheckpointMore.

(** The statement of X13 on three documents of one id stored in one batch
    into an empty cache: the last one raises at its [INSERT], and the row
    kept is that of the second. *)
Lemma store_in_sqlite_last_document_wins_example :
  let db' := store_in_sqlite empty_db [roe_document; roe_later; roe_list_date] in
  doc_id roe_list_date = doc_id roe_later
  ∧ row_binds (document_row_of roe_list_date) = false
  ∧ filter (fun r => row_id r = doc_id roe_later) (documents db')
    = [document_row_of roe_later]
  ∧ map row_plain_text (documents db') = [lit "second text, longer"].
Proof.
  cbv zeta. split; [vm_compute; reflexivity |]. split; [vm_compute; reflexivity |].
  split; [| vm_compute; reflexivity].
  apply (store_in_sqlite_last_document_wins empty_db [roe_document] [roe_list_date]
           roe_later).
  - vm_compute. reflexivity.
  - vm_compute. constructor.
Defined.

(** The statement of X18 on a file of ten numbered records of which the even
    ones become documents: one call of the store, at the end, on the five
    documents. *)
Lemma run_below_first_checkpoint_example :
  let run := run_files (Store := list (list nat))
               (fun d : nat => Returns (if Nat.even d then Some d else None))
               (fun s b => s ++ [b]) (fun l => l) [] [seq 0 10] in
  all_legal_docs run = [0; 2; 4; 6; 8]
  ∧ flush_log run = [[0; 2; 4; 6; 8]]
  ∧ stores run = [[0; 2; 4; 6; 8]]
  ∧ processed_documents run = 0.
Proof.
  cbv zeta. split; [vm_compute; reflexivity |].
  apply (run_below_first_checkpoint (Store := list (list nat))
           (fun d : nat => Returns (if Nat.even d then Some d else None))
           (fun s b => s ++ [b]) (fun l => l) [] [seq 0 10]).
  vm_compute. lia.
Defined.

(** ** The rows of the court and citation files *)

Lemma ends_with_exclusive (s1 s2 p : str) (c1 c2 : char) (r1 r2 : str) :
  rev s1 = c1 :: r1 → rev s2 = c2 :: r2 → c1 ≠ c2 →
  ends_with s1 p = true → ends_with s2 p = false.
Proof.
  unfold ends_with. intros -> -> Hne. destruct (rev p) as [|c r]; simpl; [discriminate |].
  intros H. apply andb_true_iff in H as [H _]. apply N.eqb_eq in H. subst c.
  destruct (c2 =? c1)%N eqn:E; [| reflexivity].
  apply N.eqb_eq in E. congruence.
Qed.

Section ConvertedRows.
Context `{RT : Runtime}.

Lemma convert_court_row_returns_none (row : gmap string value) :
  process_legal_document (convert_court_row_to_document row) = Returns None.
Proof. rewrite process_legal_document_outcome. reflexivity. Qed.

Lemma convert_citation_row_returns_none (row : gmap string value) :
  process_legal_document (convert_citation_row_to_document row) = Returns None.
Proof. rewrite process_legal_document_outcome. reflexivity. Qed.

Lemma convert_court_row_not_empty (row : gmap string value) :
  convert_court_row_to_document row ≠ ∅.
Proof. intros E. apply (f_equal (fun m => m !! "court"%string)) in E. discriminate E. Qed.

Lemma convert_citation_row_not_empty (row : gmap string value) :
  convert_citation_row_to_document row ≠ ∅.
Proof. intros E. apply (f_equal (fun m => m !! "court"%string)) in E. discriminate E. Qed.

Lemma filter_keeps_all {A} (P : A → Prop) `{∀ x, Decision (P x)} (l : list A) :
  Forall P l → filter P l = l.
Proof.
  induction 1 as [|x l Hx _ IH]; [reflexivity |].
  rewrite filter_cons. destruct (decide (P x)); [f_equal; exact IH | contradiction].
Qed.

(** X19.  A [.csv.bz2] file whose path contains [courts] or [citations]:
    every row of it, even an empty one, is converted into a record that is
    kept, and [process_legal_document] returns [None] for every one of these
    records, through its handler and without raising. *)
Theorem read_records_converted_rows (f : archive_file) :
  ends_with (lit ".csv.bz2") (file_path f) = true →
  contains (lit "courts") (file_path f) || contains (lit "citations") (file_path f) = true →
  ∃ records,
    read_records f = Some records
    ∧ length records = length (file_entries f)
    ∧ Forall (fun d => process_legal_document d = Returns None) records.
Proof.
  intros Hext Hkind. unfold read_records.
  rewrite (ends_with_exclusive (lit ".csv.bz2") (lit ".tar.gz") _ _ _ _ _
             eq_refl eq_refl ltac:(discriminate) Hext).
  rewrite (ends_with_exclusive (lit ".csv.bz2") (lit ".json.gz") _ _ _ _ _
             eq_refl eq_refl ltac:(discriminate) Hext).
  rewrite (ends_with_exclusive (lit ".csv.bz2") (lit ".json") _ _ _ _ _
             eq_refl eq_refl ltac:(discriminate) Hext).
  rewrite Hext. eexists. split; [reflexivity |].
  assert (Hall : Forall (fun d : gmap string value =>
                           d ≠ ∅ ∧ process_legal_document d = Returns None)
                        (map (fun row => convert_csv_row_to_document row (file_path f))
                             (file_entries f))).
  { apply Forall_map, Forall_forall. intros row _. unfold convert_csv_row_to_document.
    destruct (contains (lit "courts") (file_path f)).
    - split; [apply convert_court_row_not_empty | apply convert_court_row_returns_none].
    - cbn [orb] in Hkind. rewrite Hkind.
      split; [apply convert_citation_row_not_empty | apply convert_citation_row_returns_none]. }
  rewrite filter_keeps_all by (eapply Forall_impl; [exact Hall | intros d [Hd _]; exact Hd]).
  split; [apply length_map |].
  eapply Forall_impl; [exact Hall | intros d [_ Hd]; exact Hd].
Qed.

End ConvertedRows.

(** The statement of X19 on a file of courts with a row that names a court
    and an empty row. *)
Lemma read_records_converted_rows_example :
  let RT := reference_runtime 0 None in
  let f := {| file_path := lit "/workspace/juraxis_data/courts-2025-07-02.csv.bz2";
              file_entries := [ {[ "full_name"%string := VStr (lit "Supreme Court of Ohio") ]};
                                ∅ ] |} in
  ∃ records,
    read_records f = Some records
    ∧ length records = 2
    ∧ Forall (fun d => process_legal_document d = Returns None) records.
Proof.
  intros RT f.
  apply (read_records_converted_rows (RT := RT) f); vm_compute; reflexivity.
Defined.

(** ** The files of a run *)

Lemma ends_with_app (suffix p : str) : ends_with suffix (p ++ suffix) = true.
Proof. unfold ends_with. rewrite rev_app_distr. apply starts_with_app. Qed.

Lemma dataset_archive (name : string) (latest_date : str) :
  ends_with (lit ".csv.bz2") (dataset name latest_date) = true.
Proof.
  unfold dataset. rewrite !app_assoc. apply ends_with_app.
Qed.

Ltac by_mode mode :=
  unfold datasets; cbv zeta;
  repeat match goal with
         | |- context [bool_decide (mode = ?m)] => destruct (bool_decide (mode = m)) eqn:?
         end;
  cbn [orb].

(** X20.  Whatever the mode and the date, the files that
    [download_courtlistener_data] selects are the first 1, 2, 5, 9, 18 or 26 of
    the list of the mode [research], so every tier holds the tiers below it,
    in the same order, with the file of the courts first; and every one of
    them is a [.csv.bz2] archive. *)
Theorem datasets_tiers (mode : option str) (latest_date : str) :
  (∃ n, In n [1; 2; 5; 9; 18; 26]
        ∧ datasets mode latest_date
          = firstn n (datasets (Some (lit "research")) latest_date))
  ∧ Forall (fun name => ends_with (lit ".csv.bz2") name = true) (datasets mode latest_date).
Proof.
  split.
  - change (datasets (Some (lit "research")) latest_date)
      with (map (fun name => dataset name latest_date)
              [ "courts"; "citations"; "opinion-clusters"; "dockets"; "opinions";
                "oral-arguments"; "parentheticals"; "citation-map";
                "fjc-integrated-database"; "people-db-people"; "people-db-positions";
                "people-db-educations"; "people-db-political-affiliations";
                "people-db-schools"; "people-db-races"; "financial-disclosures";
                "financial-disclosures-positions"; "financial-disclosures-reimbursements";
                "financial-disclosures-spousal-income"; "financial-disclosures-debts";
                "financial-disclosures-agreements";
                "financial-disclosures-non-investment-income";
                "financial-disclosures-gifts"; "courthouses"; "court-appeals-to";
                "originating-court-information" ]%string).
    by_mode mode;
      first [ exists 1; split; [simpl; tauto | reflexivity]
            | exists 2; split; [simpl; tauto | reflexivity]
            | exists 5; split; [simpl; tauto | reflexivity]
            | exists 9; split; [simpl; tauto | reflexivity]
            | exists 18; split; [simpl; tauto | reflexivity]
            | exists 26; split; [simpl; tauto | reflexivity] ].
  - by_mode mode; repeat constructor; apply dataset_archive.
Qed.
